(** * USB audio receiver and player: frame decoding and playback regulation

    A shallow embedding of [scripts/usb_audio/receiver.py]
    ([AudioFrameReceiver]) and [scripts/usb_audio/play.py] ([AudioPlayer]),
    with the properties of the frame protocol and of the playback policy.

    Conventions.  Python integers are [Z].  A [bytes]/[bytearray] value is a
    [list byte]; the value of a byte is [byte_val].  The [stats] dictionary has
    a fixed set of keys and is a record.  A method that mutates [self] returns
    the new object next to its result.  An exception that leaves a method is
    an explicit outcome. *)

From Stdlib Require Import ZArith List Bool Lia QArith.
From Stdlib Require Import Strings.Byte.
Import ListNotations.
Open Scope Z_scope.

(** ** Bytes and [struct] *)

Definition byte_val (b : byte) : Z := Z.of_N (Byte.to_N b).

Definition byte_of_Z (z : Z) : byte :=
  match Byte.of_N (Z.to_N (z mod 256)) with
  | Some b => b
  | None => x00
  end.

(** [struct.unpack('<H', bytes([lo, hi]))[0]] *)
Definition le16 (lo hi : byte) : Z := byte_val lo + 256 * byte_val hi.

(** [struct.unpack('<H', data)]: a [struct.error] unless [data] has two bytes. *)
Definition unpack_H (data : list byte) : option Z :=
  match data with
  | [lo; hi] => Some (le16 lo hi)
  | _ => None
  end.

(** [struct.unpack('<HHH', data)]: a [struct.error] unless [data] has six bytes. *)
Definition unpack_HHH (data : list byte) : option (Z * Z * Z) :=
  match data with
  | [a0; a1; b0; b1; c0; c1] => Some (le16 a0 a1, le16 b0 b1, le16 c0 c1)
  | _ => None
  end.

(** [struct.pack('<H', z)] for [0 <= z < 65536]. *)
Definition pack_H (z : Z) : list byte :=
  [byte_of_Z (z mod 256); byte_of_Z (z / 256)].

(** Python slices [data[:n]], [data[n:]], [data[:-n]], [data[-n:]] for a
    positive literal [n]. *)
Definition slice_to (n : nat) (data : list byte) : list byte := firstn n data.
Definition slice_from (n : nat) (data : list byte) : list byte := skipn n data.
Definition slice_to_neg (n : nat) (data : list byte) : list byte :=
  firstn (length data - n) data.
Definition slice_from_neg (n : nat) (data : list byte) : list byte :=
  skipn (length data - n) data.

Definition len (data : list byte) : Z := Z.of_nat (length data).

(** [sum(data)] *)
Fixpoint sum (data : list byte) : Z :=
  match data with
  | [] => 0
  | b :: rest => byte_val b + sum rest
  end.

(** ** numpy: [np.frombuffer(data, dtype=np.int16)] and [ndarray.tobytes()]
    on a little-endian host. *)

Definition int16_of (lo hi : byte) : Z :=
  let u := le16 lo hi in if u <? 32768 then u else u - 65536.

Fixpoint frombuffer_int16 (data : list byte) : option (list Z) :=
  match data with
  | [] => Some []
  | lo :: hi :: rest =>
      match frombuffer_int16 rest with
      | Some samples => Some (int16_of lo hi :: samples)
      | None => None
      end
  | [_] => None   (* ValueError: buffer size must be a multiple of element size *)
  end.

Fixpoint tobytes (samples : list Z) : list byte :=
  match samples with
  | [] => []
  | s :: rest => pack_H (s mod 65536) ++ tobytes rest
  end.

(** ** receiver.py *)

Module Receiver.

Definition FRAME_MAGIC : Z := 0xAA55.
Definition FRAME_HEADER_SIZE : Z := 6.
Definition CHECKSUM_SIZE : Z := 2.

(** The serial port, as far as the receiver looks at it: the bytes waiting in
    its input buffer. *)
Record Serial := mkSerial { input_buffer : list byte }.

Definition in_waiting (s : Serial) : Z := len (input_buffer s).

(** [ser.read(n)]: the first [n] waiting bytes, which leave the input buffer. *)
Definition read (n : Z) (s : Serial) : list byte * Serial :=
  (firstn (Z.to_nat n) (input_buffer s),
   mkSerial (skipn (Z.to_nat n) (input_buffer s))).

Definition reset_input_buffer (s : Serial) : Serial := mkSerial [].

(** [self.stats] *)
Record Stats := mkStats {
  frames_received : Z;
  frames_dropped : Z;
  checksum_errors : Z;
  sync_errors : Z;
  bytes_received : Z;
  last_seq : option Z
}.

Record AudioFrameReceiver := mkReceiver {
  sample_rate : Z;
  ser : option Serial;
  stats : Stats;
  buffer : list byte
}.

(** [__init__] *)
Definition init (rate : Z) : AudioFrameReceiver :=
  mkReceiver rate None (mkStats 0 0 0 0 0 None) [].

(** [open], when the port opens: residual input has been discarded. *)
Definition open (r : AudioFrameReceiver) : AudioFrameReceiver :=
  mkReceiver (sample_rate r) (Some (mkSerial [])) (stats r) (buffer r).

(** The device end of the link: [data] reaches the port's input buffer. *)
Definition arrive (data : list byte) (r : AudioFrameReceiver) : AudioFrameReceiver :=
  match ser r with
  | Some s => mkReceiver (sample_rate r) (Some (mkSerial (input_buffer s ++ data)))
                         (stats r) (buffer r)
  | None => r
  end.

Definition set_buffer (b : list byte) (r : AudioFrameReceiver) : AudioFrameReceiver :=
  mkReceiver (sample_rate r) (ser r) (stats r) b.

Definition set_stats (s : Stats) (r : AudioFrameReceiver) : AudioFrameReceiver :=
  mkReceiver (sample_rate r) (ser r) s (buffer r).

Definition set_sync_errors (n : Z) (s : Stats) : Stats :=
  mkStats (frames_received s) (frames_dropped s) (checksum_errors s)
          n (bytes_received s) (last_seq s).

Definition add_checksum_errors (n : Z) (s : Stats) : Stats :=
  mkStats (frames_received s) (frames_dropped s) (checksum_errors s + n)
          (sync_errors s) (bytes_received s) (last_seq s).

Definition add_bytes_received (n : Z) (s : Stats) : Stats :=
  mkStats (frames_received s) (frames_dropped s) (checksum_errors s)
          (sync_errors s) (bytes_received s + n) (last_seq s).

Definition add_frames_dropped (n : Z) (s : Stats) : Stats :=
  mkStats (frames_received s) (frames_dropped s + n) (checksum_errors s)
          (sync_errors s) (bytes_received s) (last_seq s).

Definition add_frames_received (n : Z) (s : Stats) : Stats :=
  mkStats (frames_received s + n) (frames_dropped s) (checksum_errors s)
          (sync_errors s) (bytes_received s) (last_seq s).

Definition set_last_seq (q : Z) (s : Stats) : Stats :=
  mkStats (frames_received s) (frames_dropped s) (checksum_errors s)
          (sync_errors s) (bytes_received s) (Some q).

(** [flush_backlog] *)
Definition flush_backlog (r : AudioFrameReceiver) : AudioFrameReceiver :=
  mkReceiver (sample_rate r)
             (match ser r with
              | Some s => Some (reset_input_buffer s)
              | None => None
              end)
             (stats r) [].

(** The loop of [_find_sync] on the buffer and the [sync_errors] counter: the
    result, the buffer left and the counter. *)
Fixpoint find_sync_loop (buf : list byte) (errs : Z) : bool * list byte * Z :=
  match buf with
  | b0 :: tl =>
      match tl with
      | b1 :: _ =>
          if le16 b0 b1 =? FRAME_MAGIC then (true, buf, errs)
          else find_sync_loop tl (errs + 1)
      | [] => (false, buf, errs)
      end
  | [] => (false, buf, errs)
  end.

(** [_find_sync] *)
Definition _find_sync (r : AudioFrameReceiver) : bool * AudioFrameReceiver :=
  match find_sync_loop (buffer r) (sync_errors (stats r)) with
  | (found, buf, errs) =>
      (found,
       set_stats (set_sync_errors errs (stats r)) (set_buffer buf r))
  end.

(** [_calculate_checksum] *)
Definition _calculate_checksum (data : list byte) : Z :=
  Z.land (sum data) 0xFFFF.

Inductive exn := ValueError | StructError.

(** What a call of [receive_frame] comes to. *)
Inductive outcome :=
| Samples (samples : list Z)   (* the numpy array *)
| NoFrame                      (* [None] *)
| Raises (e : exn).

(** [receive_frame], lines 131-144: the read from the port.  [None] is the
    early [return None]. *)
Definition read_serial (r : AudioFrameReceiver) : option AudioFrameReceiver :=
  match ser r with
  | Some s =>
      if in_waiting s >? 0 then
        let available := in_waiting s in
        let (chunk, s') := read available s in
        let r' := mkReceiver (sample_rate r) (Some s') (stats r) (buffer r) in
        match chunk with
        | [] => Some r'
        | _ :: _ =>
            Some (mkReceiver (sample_rate r) (Some s')
                             (add_bytes_received (len chunk) (stats r))
                             (buffer r ++ chunk))
        end
      else None
  | None => Some r
  end.

(** [receive_frame], lines 175-183: sequence continuity and the counters of
    a frame that passed its checksum. *)
Definition sequence_stats (seq_num : Z) (s : Stats) : Stats :=
  let s1 :=
    match last_seq s with
    | Some last =>
        let expected_seq := Z.land (last + 1) 0xFFFF in
        if negb (seq_num =? expected_seq) then
          let dropped := Z.land (seq_num - expected_seq) 0xFFFF in
          add_frames_dropped dropped s
        else s
    | None => s
    end in
  add_frames_received 1 (set_last_seq seq_num s1).

(** [receive_frame], lines 175-189: a frame that passed its checksum. *)
Definition accept_frame (seq_num : Z) (frame_data : list byte)
    (r : AudioFrameReceiver) : outcome * AudioFrameReceiver :=
  let r' := set_stats (sequence_stats seq_num (stats r)) r in
  let audio_data := slice_to_neg 2 (slice_from 6 frame_data) in
  match frombuffer_int16 audio_data with
  | Some samples => (Samples samples, r')
  | None => (Raises ValueError, r')
  end.

(** [receive_frame], lines 146-173: sync search, header, extraction, checksum. *)
Definition parse_frame (r : AudioFrameReceiver) : outcome * AudioFrameReceiver :=
  let (found, r1) := _find_sync r in
  if negb found then (NoFrame, r1)
  else if len (buffer r1) <? FRAME_HEADER_SIZE then (NoFrame, r1)
  else
    match unpack_HHH (slice_to 6 (buffer r1)) with
    | None => (Raises StructError, r1)
    | Some (magic, seq_num, length) =>
        let frame_size := FRAME_HEADER_SIZE + length + CHECKSUM_SIZE in
        if len (buffer r1) <? frame_size then (NoFrame, r1)
        else
          let frame_data := slice_to (Z.to_nat frame_size) (buffer r1) in
          let r2 := set_buffer (slice_from (Z.to_nat frame_size) (buffer r1)) r1 in
          match unpack_H (slice_from_neg 2 frame_data) with
          | None => (Raises StructError, r2)
          | Some received_checksum =>
              let calculated_checksum :=
                _calculate_checksum (slice_to_neg 2 frame_data) in
              if negb (received_checksum =? calculated_checksum) then
                (NoFrame, set_stats (add_checksum_errors 1 (stats r2)) r2)
              else accept_frame seq_num frame_data r2
          end
    end.

(** [receive_frame] *)
Definition receive_frame (r : AudioFrameReceiver) : outcome * AudioFrameReceiver :=
  match read_serial r with
  | None => (NoFrame, r)
  | Some r' => parse_frame r'
  end.

(** The caller's loop: [n] successive calls, with what each came to. *)
Fixpoint receive_frames (n : nat) (r : AudioFrameReceiver)
    : list outcome * AudioFrameReceiver :=
  match n with
  | O => ([], r)
  | S n' =>
      let (o, r1) := receive_frame r in
      let (os, r2) := receive_frames n' r1 in
      (o :: os, r2)
  end.

End Receiver.

(** ** play.py *)

Module Player.

(** The output stream, as far as the player looks at it: what
    [get_write_available] answers ([None] when it raises), whether [write]
    raises, and the buffers [write] was called with. *)
Record Stream := mkStream {
  write_available : option Z;
  write_raises : bool;
  written : list (list byte)
}.

Definition get_write_available (s : Stream) : option Z := write_available s.

(** [stream.write(data, exception_on_underflow=False)] *)
Definition write (data : list byte) (s : Stream) : bool * Stream :=
  (negb (write_raises s),
   mkStream (write_available s) (write_raises s) (written s ++ [data])).

Record AudioPlayer := mkPlayer {
  sample_rate : Z;
  max_buffer_frames : Z;
  stream : option Stream;
  frames_dropped : Z
}.

Definition set_stream (s : Stream) (p : AudioPlayer) : AudioPlayer :=
  mkPlayer (sample_rate p) (max_buffer_frames p) (Some s) (frames_dropped p).

Definition add_frames_dropped (n : Z) (p : AudioPlayer) : AudioPlayer :=
  mkPlayer (sample_rate p) (max_buffer_frames p) (stream p) (frames_dropped p + n).

(** [get_buffer_latency_ms].  The float result is taken as the exact
    quotient; a zero [sample_rate] makes the division raise inside the [try]. *)
Definition get_buffer_latency_ms (p : AudioPlayer) : Q :=
  match stream p with
  | None => 0%Q
  | Some s =>
      match get_write_available s with
      | Some available =>
          let estimated_total := 60 * 4 in
          let queued := Z.max 0 (estimated_total - available) in
          if sample_rate p =? 0 then 0%Q
          else (inject_Z (queued * 1000) / inject_Z (sample_rate p))%Q
      | None => 0%Q
      end
  end.

(** [play]: [audio_data] is the sample array. *)
Definition play (audio_data : list Z) (drop_if_buffer_full : bool)
    (p : AudioPlayer) : bool * AudioPlayer :=
  match stream p with
  | None => (false, p)
  | Some s =>
      let full :=
        if drop_if_buffer_full then
          match get_write_available s with
          | Some available => available <? Z.of_nat (length audio_data) * 2
          | None => false
          end
        else false in
      if full then (false, add_frames_dropped 1 p)
      else
        let (ok, s') := write (tobytes audio_data) s in
        if ok then (true, set_stream s' p)
        else (false, add_frames_dropped 1 (set_stream s' p))
  end.

End Player.

Import Receiver.

(** ** The sender *)

(** Modelled from the spec: the encoder of the wire format (the firmware that
    sends the frames is not among these sources).  Magic, sequence number and
    payload length as little-endian uint16, the payload, then the sum of all
    preceding bytes modulo 65536 as a little-endian uint16. *)
Definition frame_body (seq : Z) (payload : list byte) : list byte :=
  pack_H FRAME_MAGIC ++ pack_H seq ++ pack_H (len payload) ++ payload.

Definition encode_frame (seq : Z) (payload : list byte) : list byte :=
  frame_body seq payload ++ pack_H (sum (frame_body seq payload) mod 65536).

(** A frame the sender can produce. *)
Definition encodable (seq : Z) (payload : list byte) : Prop :=
  0 <= seq < 65536 /\ len payload < 65536.

(** ** Corruption *)

(** Bit [k] of a byte inverted. *)
Definition flip_bit (k : nat) (b : byte) : byte :=
  byte_of_Z (Z.lxor (byte_val b) (2 ^ Z.of_nat k)).

(** Bit [k] of the byte at index [i] inverted. *)
Definition flip_at (i k : nat) (data : list byte) : list byte :=
  firstn i data ++
  match skipn i data with
  | b :: rest => flip_bit k b :: rest
  | [] => []
  end.

(** No two adjacent bytes of [data] are the magic marker. *)
Fixpoint no_magic (data : list byte) : bool :=
  match data with
  | b0 :: tl =>
      match tl with
      | b1 :: _ => negb (le16 b0 b1 =? FRAME_MAGIC) && no_magic tl
      | [] => true
      end
  | [] => true
  end.

(** ** What the caller sees *)

(** The samples of a payload of whole little-endian int16 words. *)
Fixpoint samples_of (payload : list byte) : list Z :=
  match payload with
  | lo :: hi :: rest => int16_of lo hi :: samples_of rest
  | _ => []
  end.

(** A frame of the wire format: encodable, the payload of even length. *)
Definition wire_frame (f : Z * list byte) : Prop :=
  encodable (fst f) (snd f) /\ Nat.Even (length (snd f)).

(** The bytes of a run of frames. *)
Fixpoint encode_frames (fs : list (Z * list byte)) : list byte :=
  match fs with
  | [] => []
  | (seq, payload) :: rest => encode_frame seq payload ++ encode_frames rest
  end.

(** The six header bytes of a frame: the marker, then the two bytes of the
    sequence number and of the length. *)
Definition header (s0 s1 l0 l1 : byte) : list byte := [x55; xaa; s0; s1; l0; l1].

(** The byte positions of the sequence number and of the payload in a frame. *)
Definition in_seq_or_payload (i : nat) (payload : list byte) : Prop :=
  (2 <= i < 4)%nat \/ (6 <= i < 6 + length payload)%nat.



Definition after_seq_5 : AudioFrameReceiver :=
  snd (receive_frame (arrive (encode_frame 5 [x01; x02]) (open (init 48000)))).

Definition marker_noise : list byte := [x55; xaa; x00; x00; x02; x00].

Definition saturated_stream : Player.Stream := Player.mkStream (Some 3) false [].

Definition stream_60_free : Player.Stream := Player.mkStream (Some 60) false [].

Definition sample_player (s : Player.Stream) : Player.AudioPlayer :=
  Player.mkPlayer 48000 240 (Some s) 0.

(** ** Reporting: [print_stats] *)

(** [print_stats], lines 204-207: the success rate it prints.  Nothing is
    printed when no frame was received; a zero denominator makes the
    division raise.  The float quotient is taken as the exact rational. *)
Inductive rate_line :=
| NoRate
| Rate (percent : Q)
| RateRaises.   (* ZeroDivisionError *)

Definition print_stats_success_rate (s : Stats) : rate_line :=
  if frames_received s >? 0 then
    if frames_received s + frames_dropped s =? 0 then RateRaises
    else Rate (100 * inject_Z (frames_received s) /
               inject_Z (frames_received s + frames_dropped s))%Q
  else NoRate.

(** What a session can do to a receiver once it is constructed: open the
    port, let bytes reach the port, call [receive_frame], call
    [flush_backlog]. *)
Inductive reachable (rate : Z) : AudioFrameReceiver -> Prop :=
| reach_init : reachable rate (init rate)
| reach_open r : reachable rate r -> reachable rate (open r)
| reach_arrive r data : reachable rate r -> reachable rate (arrive data r)
| reach_receive r : reachable rate r -> reachable rate (snd (receive_frame r))
| reach_flush r : reachable rate r -> reachable rate (flush_backlog r).

(** The outcomes that hand something other than [None] to the caller. *)
Definition delivered (o : outcome) : bool :=
  match o with
  | NoFrame => false
  | _ => true
  end.

Fixpoint count_delivered (os : list outcome) : Z :=
  match os with
  | [] => 0
  | o :: rest => (if delivered o then 1 else 0) + count_delivered rest
  end.

(** ** record.py *)

Module Recorder.

(** What [record_audio] comes to: the recording, or the exception that
    leaves it.  ([KeyboardInterrupt] is not modelled.) *)
Inductive recording :=
| Recorded (audio : list Z)
| Failed (e : exn).

(** The loop of [record_audio], lines 36-53.  The clock decides after how
    many iterations the loop ends (it is asked at the end of an iteration,
    so there is at least one); [arrivals] holds, for each iteration, the
    bytes that reach the port before its [receive_frame] call.
    [audio_buffer] is the list of frames appended so far. *)
Fixpoint record_loop (arrivals : list (list byte)) (r : AudioFrameReceiver)
    (audio_buffer : list (list Z)) : option exn * list (list Z) * AudioFrameReceiver :=
  match arrivals with
  | [] => (None, audio_buffer, r)
  | data :: later =>
      let (o, r1) := receive_frame (arrive data r) in
      match o with
      | Samples frame => record_loop later r1 (audio_buffer ++ [frame])
      | NoFrame => record_loop later r1 audio_buffer
      | Raises e => (Some e, audio_buffer, r1)
      end
  end.

(** [record_audio]: the loop, with the arrivals before its first and its
    later iterations, then [np.concatenate(audio_buffer)] or the empty
    array. *)
Definition record_audio (first : list byte) (later : list (list byte))
    (r : AudioFrameReceiver) : recording * AudioFrameReceiver :=
  match record_loop (first :: later) r [] with
  | (None, audio_buffer, r') => (Recorded (concat audio_buffer), r')
  | (Some e, _, r') => (Failed e, r')
  end.

End Recorder.

(** ** play.py: the loop of [main] *)

Module PlayMain.

Record LoopState := mkLoop {
  receiver : AudioFrameReceiver;
  player : Player.AudioPlayer;
  frame_count : Z;
  last_stats_time : Q
}.

(** The drop rate printed every second, lines 157-165. *)
Definition drop_rate (received dropped player_dropped : Z) : Q :=
  let total_dropped := dropped + player_dropped in
  if received + total_dropped >? 0 then
    (100 * inject_Z total_dropped / inject_Z (received + total_dropped))%Q
  else 0%Q.

(** One iteration of the [while True] loop of [main], lines 141-181.
    [now] is what [time.time()] answers when it is asked; [max_latency] is
    [args.max_latency].  The result says whether the statistics block
    flushed the receiver, or which exception leaves the loop. *)
Inductive step_result :=
| Continue (flushed : bool)
| Exits (e : exn).

Definition loop_body (max_latency now : Q) (st : LoopState)
    : step_result * LoopState :=
  let (o, r1) := receive_frame (receiver st) in
  match o with
  | Samples frame =>
      let buffer_latency_ms := Player.get_buffer_latency_ms (player st) in
      let (played, p1) := Player.play frame true (player st) in
      let fc := if played then frame_count st + 1 else frame_count st in
      if Qle_bool 1 (now - last_stats_time st) then
        if negb (Qle_bool buffer_latency_ms max_latency) then
          (Continue true, mkLoop (flush_backlog r1) p1 fc now)
        else (Continue false, mkLoop r1 p1 fc now)
      else (Continue false, mkLoop r1 p1 fc (last_stats_time st))
  | NoFrame =>
      (Continue false,
       mkLoop r1 (player st) (frame_count st) (last_stats_time st))
  | Raises e =>
      (Exits e, mkLoop r1 (player st) (frame_count st) (last_stats_time st))
  end.

End PlayMain.

(** ** Feeding a receiver *)

(** One [receive_frame] call after each arrival at the port. *)
Fixpoint receive_chunks (chunks : list (list byte)) (r : AudioFrameReceiver)
    : list outcome * AudioFrameReceiver :=
  match chunks with
  | [] => ([], r)
  | data :: later =>
      let (o, r1) := receive_frame (arrive data r) in
      let (os, r2) := receive_chunks later r1 in
      (o :: os, r2)
  end.

(** The sequence numbers of a run of frames rise by at least one from each
    frame to the next, without wrapping. *)
Fixpoint rising (last : Z) (fs : list (Z * list byte)) : Prop :=
  match fs with
  | [] => True
  | (seq, _) :: rest => last < seq /\ rising seq rest
  end.

Fixpoint last_seq_of (last : Z) (fs : list (Z * list byte)) : Z :=
  match fs with
  | [] => last
  | (seq, _) :: rest => last_seq_of seq rest
  end.

(** ** The ways a call can end *)

(** The receiver once the sync search has dropped [skipped] and stands
    before [rest]. *)
Definition resynced (skipped rest : list byte) (r : AudioFrameReceiver)
    : AudioFrameReceiver :=
  set_stats (set_sync_errors (sync_errors (stats r) + len skipped) (stats r))
            (set_buffer rest r).

(** What the parsing part of a call does to a backlog [skipped ++ ...],
    where [skipped] is what the sync search drops (no marker begins in it):
    it waits (nothing beyond [skipped] is consumed), it drops a frame-sized
    block whose checksum does not match, or it accepts a frame of the wire
    format. *)
Inductive parse_result (r : AudioFrameReceiver)
    : outcome -> AudioFrameReceiver -> Prop :=
| parse_waits skipped rest :
    buffer r = skipped ++ rest ->
    no_magic (skipped ++ firstn 1 rest) = true ->
    (len rest < 8 + 65535) ->
    parse_result r NoFrame (resynced skipped rest r)
| parse_drops skipped block rest :
    buffer r = skipped ++ block ++ rest ->
    no_magic (skipped ++ firstn 1 block) = true ->
    8 <= len block ->
    parse_result r NoFrame
      (set_stats (add_checksum_errors 1 (stats (resynced skipped rest r)))
                 (resynced skipped rest r))
| parse_accepts skipped seq payload rest :
    buffer r = skipped ++ encode_frame seq payload ++ rest ->
    no_magic (skipped ++ [x55]) = true ->
    encodable seq payload ->
    parse_result r
      (match frombuffer_int16 payload with
       | Some samples => Samples samples
       | None => Raises ValueError
       end)
      (set_stats (sequence_stats seq (stats (resynced skipped rest r)))
                 (resynced skipped rest r)).

(** ** The port as a call finds it *)

(** The bytes the next call reads from the port: what is waiting there. *)
Definition incoming (r : AudioFrameReceiver) : list byte :=
  match ser r with
  | Some s => input_buffer s
  | None => []
  end.

(** The guard of lines 135-144 closes: a port is attached and nothing is
    waiting, so the call returns [None] before it looks at the backlog. *)
Definition port_idle (r : AudioFrameReceiver) : bool :=
  match ser r with
  | Some s => negb (in_waiting s >? 0)
  | None => false
  end.

(** Sample data: a receiver that has returned the first frame of a burst and
    holds, with the port idle, a frame with one payload bit inverted; and one
    that holds three noise bytes and a valid frame. *)
Definition after_good_before_flipped : AudioFrameReceiver :=
  snd (receive_frame
         (arrive (encode_frame 5 [x01; x02; xff; xff] ++
                  flip_at 7 3 (encode_frame 6 [x10; x80]))
                 (open (init 48000)))).

Definition after_good_before_noise : AudioFrameReceiver :=
  snd (receive_frame
         (arrive (encode_frame 5 [x01; x02; xff; xff] ++
                  [x00; x55; x01] ++ encode_frame 6 [x10; x80])
                 (open (init 48000)))).

(** ** The double arithmetic of the latency estimate *)

(** What the bounds need of the rounding of a real number to a double: it
    keeps the order, and it keeps the integers a double holds exactly. *)
Definition rounds_like_double (rnd : Q -> Q) : Prop :=
  (forall x y : Q, (x <= y)%Q -> (rnd x <= rnd y)%Q) /\
  (forall z : Z, - 2 ^ 53 <= z <= 2 ^ 53 -> (rnd (inject_Z z) == inject_Z z)%Q).

(** [get_buffer_latency_ms], lines 53-67, with every rounding of
    [queued * 1000.0 / self.sample_rate] explicit: [queued] and
    [self.sample_rate] become doubles, the product and the quotient are
    rounded.  A zero [sample_rate] makes the division raise inside the
    [try]. *)
Definition get_buffer_latency_ms_rounded (rnd : Q -> Q) (p : Player.AudioPlayer) : Q :=
  match Player.stream p with
  | None => 0%Q
  | Some s =>
      match Player.get_write_available s with
      | Some available =>
          let estimated_total := 60 * 4 in
          let queued := Z.max 0 (estimated_total - available) in
          if Player.sample_rate p =? 0 then 0%Q
          else rnd (rnd (rnd (inject_Z queued) * 1000) /
                    rnd (inject_Z (Player.sample_rate p)))%Q
      | None => 0%Q
      end
  end.

Definition stream_minus_1_free : Player.Stream := Player.mkStream (Some (-1)) false [].

(** ** A port that can fail *)

(** [ser.in_waiting] and [ser.read] (lines 135-138) are not guarded: when
    the port fails, its exception (OSError, SerialException) leaves
    [receive_frame] before the receiver is touched. *)
Inductive call_result :=
| Returns (o : outcome)
| PortRaises.

(** [receive_frame] on a port that fails at this call ([port_fails]) or
    does not. *)
Definition receive_frame_port (port_fails : bool) (r : AudioFrameReceiver)
    : call_result * AudioFrameReceiver :=
  match ser r with
  | Some _ =>
      if port_fails then (PortRaises, r)
      else let (o, r') := receive_frame r in (Returns o, r')
  | None => let (o, r') := receive_frame r in (Returns o, r')
  end.

(** Successive calls, the caller going on after an exception; [fails] says
    for each call whether the port fails at it. *)
Fixpoint receive_frames_port (fails : list bool) (r : AudioFrameReceiver)
    : list call_result * AudioFrameReceiver :=
  match fails with
  | [] => ([], r)
  | f :: later =>
      let (res, r1) := receive_frame_port f r in
      let (ress, r2) := receive_frames_port later r1 in
      (res :: ress, r2)
  end.

(** The calls that took a frame: they returned samples or raised on the
    frame's payload. *)
Definition took_frame (res : call_result) : bool :=
  match res with
  | Returns o => delivered o
  | PortRaises => false
  end.

Fixpoint count_took_frame (ress : list call_result) : Z :=
  match ress with
  | [] => 0
  | res :: rest => (if took_frame res then 1 else 0) + count_took_frame rest
  end.

(** The calls an exception leaves. *)
Definition exceptional (res : call_result) : bool :=
  match res with
  | PortRaises => true
  | Returns (Raises _) => true
  | Returns _ => false
  end.

(** * Properties *)

(** Side conditions on concrete frames: field ranges and payload parity. *)
Ltac concrete_frame :=
  match goal with
  | |- encodable _ _ => unfold encodable, len; simpl; lia
  | |- Nat.Even ?n => exists (Nat.div2 n); reflexivity
  | |- Nat.Odd ?n => exists (Nat.div2 n); reflexivity
  | |- in_seq_or_payload _ _ => unfold in_seq_or_payload; simpl; lia
  | |- _ => simpl; lia
  end.

(** ** Bytes, words and sums *)

Lemma byte_val_range (b : byte) : 0 <= byte_val b < 256.
Proof.
  unfold byte_val. pose proof (Byte.to_N_bounded b). lia.
Qed.

Lemma byte_of_Z_val (b : byte) : byte_of_Z (byte_val b) = b.
Proof.
  unfold byte_of_Z. rewrite Z.mod_small by apply byte_val_range.
  unfold byte_val. rewrite N2Z.id, Byte.of_to_N. reflexivity.
Qed.

Lemma byte_val_of_Z (z : Z) : byte_val (byte_of_Z z) = z mod 256.
Proof.
  assert (Hm : 0 <= z mod 256 < 256) by (apply Z.mod_pos_bound; lia).
  unfold byte_of_Z, byte_val.
  destruct (Byte.of_N (Z.to_N (z mod 256))) as [b|] eqn:E.
  - apply Byte.to_of_N in E. rewrite E. apply Z2N.id. lia.
  - apply Byte.of_N_None_iff in E. lia.
Qed.

Lemma le16_range (lo hi : byte) : 0 <= le16 lo hi < 65536.
Proof.
  unfold le16. pose proof (byte_val_range lo). pose proof (byte_val_range hi). lia.
Qed.

Lemma le16_pack (z : Z) :
  0 <= z < 65536 ->
  exists lo hi, pack_H z = [lo; hi] /\ le16 lo hi = z.
Proof.
  intros Hz. eexists. eexists. split; [reflexivity|].
  unfold le16. rewrite !byte_val_of_Z, Z.mod_mod by lia.
  rewrite (Z.mod_small (z / 256)).
  - pose proof (Z.div_mod z 256). lia.
  - split; [apply Z.div_pos; lia | apply Z.div_lt_upper_bound; lia].
Qed.

Lemma pack_le16 (lo hi : byte) : pack_H (le16 lo hi) = [lo; hi].
Proof.
  pose proof (byte_val_range lo) as Hl. pose proof (byte_val_range hi) as Hh.
  unfold pack_H, le16.
  rewrite <- (Z.mod_unique_pos _ 256 (byte_val hi) (byte_val lo)) by lia.
  rewrite <- (Z.div_unique_pos _ 256 (byte_val hi) (byte_val lo)) by lia.
  rewrite !byte_of_Z_val. reflexivity.
Qed.

Lemma land_FFFF (x : Z) : Z.land x 0xFFFF = x mod 65536.
Proof.
  change 0xFFFF with (Z.ones 16). rewrite Z.land_ones by lia. reflexivity.
Qed.

Lemma sum_app (a b : list byte) : sum (a ++ b) = sum a + sum b.
Proof.
  induction a as [|x a IH]; simpl; [reflexivity | rewrite IH; lia].
Qed.

Lemma len_app (a b : list byte) : len (a ++ b) = len a + len b.
Proof.
  unfold len. rewrite length_app. lia.
Qed.

Lemma len_nonneg (a : list byte) : 0 <= len a.
Proof. unfold len. lia. Qed.

Lemma firstn_length_app (a b : list byte) : firstn (length a) (a ++ b) = a.
Proof.
  induction a as [|x a IH]; simpl; [destruct b; reflexivity | rewrite IH; reflexivity].
Qed.

Lemma skipn_length_app (a b : list byte) : skipn (length a) (a ++ b) = b.
Proof.
  induction a as [|x a IH]; simpl; [reflexivity | exact IH].
Qed.

Lemma slice_to_neg_app2 (a : list byte) (c0 c1 : byte) :
  slice_to_neg 2 (a ++ [c0; c1]) = a.
Proof.
  unfold slice_to_neg. rewrite length_app. simpl length.
  replace (length a + 2 - 2)%nat with (length a) by lia.
  apply firstn_length_app.
Qed.

Lemma slice_from_neg_app2 (a : list byte) (c0 c1 : byte) :
  slice_from_neg 2 (a ++ [c0; c1]) = [c0; c1].
Proof.
  unfold slice_from_neg. rewrite length_app. simpl length.
  replace (length a + 2 - 2)%nat with (length a) by lia.
  apply skipn_length_app.
Qed.

(** ** numpy *)

Lemma int16_of_mod (lo hi : byte) : int16_of lo hi mod 65536 = le16 lo hi.
Proof.
  unfold int16_of. pose proof (le16_range lo hi) as H.
  destruct (le16 lo hi <? 32768) eqn:E.
  - apply Z.mod_small. lia.
  - replace (le16 lo hi - 65536) with (le16 lo hi + (-1) * 65536) by lia.
    rewrite Z.mod_add by lia. apply Z.mod_small. lia.
Qed.

Lemma int16_of_range (lo hi : byte) : -32768 <= int16_of lo hi < 32768.
Proof.
  unfold int16_of. pose proof (le16_range lo hi) as H.
  destruct (le16 lo hi <? 32768) eqn:E;
    [apply Z.ltb_lt in E | apply Z.ltb_ge in E]; lia.
Qed.

Lemma frombuffer_tobytes_le (n : nat) :
  forall data samples,
    (length data <= n)%nat ->
    frombuffer_int16 data = Some samples -> tobytes samples = data.
Proof.
  induction n as [|n IH]; intros data samples Hn H.
  - destruct data; [|simpl in Hn; lia]. inversion H. reflexivity.
  - destruct data as [|lo [|hi rest]]; simpl in H.
    + inversion H. reflexivity.
    + discriminate.
    + destruct (frombuffer_int16 rest) as [s|] eqn:E; [|discriminate].
      inversion H; subst. cbn [tobytes].
      rewrite int16_of_mod, pack_le16. simpl.
      rewrite (IH rest s); [reflexivity | simpl in Hn; lia | exact E].
Qed.

Lemma frombuffer_tobytes (data : list byte) (samples : list Z) :
  frombuffer_int16 data = Some samples -> tobytes samples = data.
Proof.
  apply (frombuffer_tobytes_le (length data)). lia.
Qed.

Lemma frombuffer_odd (data : list byte) :
  Nat.Odd (length data) -> frombuffer_int16 data = None.
Proof.
  intros [k Hk]. revert data Hk.
  induction k as [|k IH]; intros data Hk.
  - destruct data as [|lo [|hi rest]]; simpl in Hk; try lia. reflexivity.
  - destruct data as [|lo [|hi rest]]; simpl in Hk; try lia.
    simpl. rewrite (IH rest) by lia. reflexivity.
Qed.

(** ** One call on a backlog that starts at a sync marker *)

Lemma set_stats_buffer_id (r : AudioFrameReceiver) :
  set_stats (set_sync_errors (sync_errors (stats r)) (stats r))
            (set_buffer (buffer r) r) = r.
Proof.
  destruct r as [sr se [a b c d e f] buf]. reflexivity.
Qed.

Lemma find_sync_hit (r : AudioFrameReceiver) (tl : list byte) :
  buffer r = x55 :: xaa :: tl -> _find_sync r = (true, r).
Proof.
  intros H. unfold _find_sync. rewrite H. cbn [find_sync_loop].
  change (le16 x55 xaa =? FRAME_MAGIC) with true. cbn iota.
  rewrite <- H. rewrite set_stats_buffer_id. reflexivity.
Qed.

Lemma parse_frame_at_sync (r : AudioFrameReceiver)
    (s0 s1 l0 l1 c0 c1 : byte) (payload rest : list byte) :
  buffer r = (header s0 s1 l0 l1 ++ payload ++ [c0; c1]) ++ rest ->
  le16 l0 l1 = len payload ->
  parse_frame r =
    if le16 c0 c1 =? _calculate_checksum (header s0 s1 l0 l1 ++ payload)
    then accept_frame (le16 s0 s1) (header s0 s1 l0 l1 ++ payload ++ [c0; c1])
                      (set_buffer rest r)
    else (NoFrame, set_stats (add_checksum_errors 1 (stats r)) (set_buffer rest r)).
Proof.
  intros Hbuf Hlen.
  set (frame_data := header s0 s1 l0 l1 ++ payload ++ [c0; c1]) in *.
  assert (Hfl : len frame_data = 6 + len payload + 2).
  { unfold frame_data, header, len. simpl length. rewrite length_app. simpl length. lia. }
  unfold parse_frame.
  rewrite (find_sync_hit r (s0 :: s1 :: l0 :: l1 :: payload ++ [c0; c1] ++ rest)).
  2:{ rewrite Hbuf. unfold frame_data, header. simpl. rewrite <- app_assoc. reflexivity. }
  cbn [negb].
  replace (len (buffer r) <? FRAME_HEADER_SIZE) with false.
  2:{ symmetry. apply Z.ltb_ge. rewrite Hbuf, len_app, Hfl. pose proof (len_nonneg payload). pose proof (len_nonneg rest).
      unfold FRAME_HEADER_SIZE. lia. }
  replace (slice_to 6 (buffer r)) with (header s0 s1 l0 l1).
  2:{ rewrite Hbuf. reflexivity. }
  cbn [unpack_HHH header]. rewrite Hlen.
  replace (len (buffer r) <? FRAME_HEADER_SIZE + len payload + CHECKSUM_SIZE) with false.
  2:{ symmetry. apply Z.ltb_ge. rewrite Hbuf, len_app, Hfl. pose proof (len_nonneg rest).
      unfold FRAME_HEADER_SIZE, CHECKSUM_SIZE. lia. }
  replace (Z.to_nat (FRAME_HEADER_SIZE + len payload + CHECKSUM_SIZE))
    with (length frame_data).
  2:{ unfold FRAME_HEADER_SIZE, CHECKSUM_SIZE, len in *. lia. }
  unfold slice_to, slice_from. rewrite Hbuf, firstn_length_app, skipn_length_app.
  replace frame_data with ((header s0 s1 l0 l1 ++ payload) ++ [c0; c1])
    by (unfold frame_data; rewrite <- app_assoc; reflexivity).
  rewrite slice_from_neg_app2, slice_to_neg_app2.
  cbn [unpack_H].
  destruct (le16 c0 c1 =? _calculate_checksum (header s0 s1 l0 l1 ++ payload));
    cbn [negb]; [reflexivity|].
  destruct r as [sr se st buf]. reflexivity.
Qed.

(** ** Frames of the sender *)

Lemma encode_frame_shape (seq : Z) (payload : list byte) :
  encodable seq payload ->
  exists s0 s1 l0 l1 c0 c1,
    encode_frame seq payload = header s0 s1 l0 l1 ++ payload ++ [c0; c1] /\
    le16 s0 s1 = seq /\
    le16 l0 l1 = len payload /\
    le16 c0 c1 = _calculate_checksum (header s0 s1 l0 l1 ++ payload).
Proof.
  intros [Hseq Hlen].
  destruct (le16_pack seq Hseq) as (s0 & s1 & Hs & Hsv).
  destruct (le16_pack (len payload)) as (l0 & l1 & Hl & Hlv).
  { pose proof (len_nonneg payload). lia. }
  assert (Hbody : frame_body seq payload = header s0 s1 l0 l1 ++ payload).
  { unfold frame_body. rewrite Hs, Hl. reflexivity. }
  destruct (le16_pack (sum (frame_body seq payload) mod 65536))
    as (c0 & c1 & Hc & Hcv).
  { apply Z.mod_pos_bound. lia. }
  exists s0, s1, l0, l1, c0, c1. repeat split; try assumption.
  - unfold encode_frame. rewrite Hc, Hbody, <- app_assoc. reflexivity.
  - unfold _calculate_checksum. rewrite land_FFFF, <- Hbody. exact Hcv.
Qed.

Lemma audio_data_of_frame (s0 s1 l0 l1 c0 c1 : byte) (payload : list byte) :
  slice_to_neg 2 (slice_from 6 (header s0 s1 l0 l1 ++ payload ++ [c0; c1])) = payload.
Proof.
  unfold slice_from, header. cbn [app skipn]. apply slice_to_neg_app2.
Qed.

(** A backlog that starts with a frame of the sender: the frame is taken out
    and accepted. *)
Lemma parse_valid_frame (r : AudioFrameReceiver) (seq : Z) (payload rest : list byte) :
  encodable seq payload ->
  buffer r = encode_frame seq payload ++ rest ->
  parse_frame r =
    (match frombuffer_int16 payload with
     | Some samples => Samples samples
     | None => Raises ValueError
     end,
     set_stats (sequence_stats seq (stats r)) (set_buffer rest r)).
Proof.
  intros Henc Hbuf.
  destruct (encode_frame_shape seq payload Henc)
    as (s0 & s1 & l0 & l1 & c0 & c1 & Hshape & Hs & Hl & Hc).
  rewrite Hshape in Hbuf.
  rewrite (parse_frame_at_sync r s0 s1 l0 l1 c0 c1 payload rest Hbuf Hl).
  rewrite Hc, Z.eqb_refl. unfold accept_frame.
  rewrite audio_data_of_frame, Hs.
  destruct (frombuffer_int16 payload); reflexivity.
Qed.

(** ** The read from the port *)

Lemma read_serial_pending (r : AudioFrameReceiver) (s : Serial) :
  ser r = Some s ->
  input_buffer s <> [] ->
  read_serial r =
    Some (mkReceiver (sample_rate r) (Some (mkSerial []))
                     (add_bytes_received (len (input_buffer s)) (stats r))
                     (buffer r ++ input_buffer s)).
Proof.
  intros Hser Hne. unfold read_serial. rewrite Hser.
  destruct s as [pending]. cbn [input_buffer] in *.
  unfold in_waiting, read. cbn [input_buffer].
  destruct pending as [|b pending]; [congruence|].
  replace (len (b :: pending) >? 0) with true
    by (symmetry; apply Z.gtb_lt; unfold len; simpl length; lia).
  assert (Hn : Z.to_nat (len (b :: pending)) = length (b :: pending))
    by (unfold len; apply Nat2Z.id).
  rewrite !Hn, !firstn_all, !skipn_all. reflexivity.
Qed.

Lemma read_serial_idle (r : AudioFrameReceiver) (s : Serial) :
  ser r = Some s -> input_buffer s = [] -> read_serial r = None.
Proof.
  intros Hser He. unfold read_serial. rewrite Hser. unfold in_waiting.
  rewrite He. reflexivity.
Qed.

Lemma read_serial_detached (r : AudioFrameReceiver) :
  ser r = None -> read_serial r = Some r.
Proof.
  intros Hser. unfold read_serial. rewrite Hser. reflexivity.
Qed.

Lemma encode_frame_nonempty (seq : Z) (payload : list byte) :
  encode_frame seq payload <> [].
Proof.
  unfold encode_frame, frame_body, pack_H. discriminate.
Qed.

(** The read from the port touches [bytes_received] only. *)
Lemma read_serial_stats (r r1 : AudioFrameReceiver) :
  read_serial r = Some r1 ->
  frames_received (stats r1) = frames_received (stats r) /\
  frames_dropped (stats r1) = frames_dropped (stats r) /\
  checksum_errors (stats r1) = checksum_errors (stats r) /\
  sync_errors (stats r1) = sync_errors (stats r) /\
  last_seq (stats r1) = last_seq (stats r).
Proof.
  unfold read_serial. intros H.
  destruct (ser r) as [s|].
  - destruct (in_waiting s >? 0); [|discriminate].
    destruct (read (in_waiting s) s) as [chunk s'].
    destruct chunk; inversion H; subst; cbn; repeat split; reflexivity.
  - inversion H; subst. repeat split; reflexivity.
Qed.

(** ** Sync search *)

Lemma not_magic_before_marker (b : byte) : (le16 b x55 =? FRAME_MAGIC) = false.
Proof.
  apply Z.eqb_neq. unfold le16, FRAME_MAGIC.
  change (byte_val x55) with 85. pose proof (byte_val_range b). lia.
Qed.

Lemma find_sync_loop_step (b0 b1 : byte) (tl : list byte) (errs : Z) :
  find_sync_loop (b0 :: b1 :: tl) errs =
    if le16 b0 b1 =? FRAME_MAGIC then (true, b0 :: b1 :: tl, errs)
    else find_sync_loop (b1 :: tl) (errs + 1).
Proof. reflexivity. Qed.

Lemma find_sync_loop_noise (noise tl : list byte) (errs : Z) :
  no_magic noise = true ->
  find_sync_loop (noise ++ x55 :: xaa :: tl) errs =
    (true, x55 :: xaa :: tl, errs + len noise).
Proof.
  revert errs. induction noise as [|b noise IH]; intros errs Hn.
  - cbn [app find_sync_loop]. change (le16 x55 xaa =? FRAME_MAGIC) with true.
    cbn iota. unfold len. simpl. rewrite Z.add_0_r. reflexivity.
  - destruct noise as [|b' noise].
    + cbn [app find_sync_loop]. rewrite not_magic_before_marker.
      change (le16 x55 xaa =? FRAME_MAGIC) with true. cbn iota.
      reflexivity.
    + cbn [no_magic] in Hn. apply andb_prop in Hn. destruct Hn as [Hb Hn].
      apply negb_true_iff in Hb.
      change ((b :: b' :: noise) ++ x55 :: xaa :: tl)
        with (b :: b' :: (noise ++ x55 :: xaa :: tl)).
      rewrite find_sync_loop_step, Hb.
      change (b' :: noise ++ x55 :: xaa :: tl)
        with ((b' :: noise) ++ x55 :: xaa :: tl).
      rewrite (IH (errs + 1) Hn).
      f_equal. unfold len. simpl length. lia.
Qed.

(** Noise without a marker before a marker: the call goes on as if the noise
    had never been there, but for [sync_errors]. *)
Lemma parse_frame_skip_noise (r : AudioFrameReceiver) (noise tl : list byte) :
  no_magic noise = true ->
  buffer r = noise ++ x55 :: xaa :: tl ->
  parse_frame r =
    parse_frame
      (set_stats (set_sync_errors (sync_errors (stats r) + len noise) (stats r))
                 (set_buffer (x55 :: xaa :: tl) r)).
Proof.
  intros Hn Hbuf.
  set (r1 := set_stats _ _).
  assert (H1 : _find_sync r = (true, r1)).
  { unfold _find_sync. rewrite Hbuf, (find_sync_loop_noise noise tl _ Hn). reflexivity. }
  assert (H2 : _find_sync r1 = (true, r1)).
  { apply (find_sync_hit r1 tl). reflexivity. }
  unfold parse_frame. rewrite H1, H2. reflexivity.
Qed.

Lemma find_sync_short (r : AudioFrameReceiver) :
  (length (buffer r) < 2)%nat -> _find_sync r = (false, r).
Proof.
  intros H. unfold _find_sync.
  destruct (buffer r) as [|b0 [|b1 tl]] eqn:E; try (simpl in H; lia);
    cbn [find_sync_loop]; rewrite <- E, set_stats_buffer_id; reflexivity.
Qed.

(** ** One inverted bit *)

Lemma flip_bit_val (k : nat) (b : byte) :
  (k < 8)%nat -> byte_val (flip_bit k b) <> byte_val b.
Proof.
  intros Hk Heq.
  assert (Hbit : Z.testbit (byte_val (flip_bit k b)) (Z.of_nat k)
                 = negb (Z.testbit (byte_val b) (Z.of_nat k))).
  { unfold flip_bit. rewrite byte_val_of_Z.
    change 256 with (2 ^ 8).
    rewrite Z.mod_pow2_bits_low by lia.
    rewrite Z.lxor_spec, Z.pow2_bits_true by lia.
    apply xorb_true_r. }
  rewrite Heq in Hbit. destruct (Z.testbit (byte_val b) (Z.of_nat k)); discriminate.
Qed.

Lemma flip_at_0 (k : nat) (b : byte) (data : list byte) :
  flip_at 0 k (b :: data) = flip_bit k b :: data.
Proof. reflexivity. Qed.

Lemma flip_at_S (i k : nat) (b : byte) (data : list byte) :
  flip_at (S i) k (b :: data) = b :: flip_at i k data.
Proof. reflexivity. Qed.

Lemma flip_at_app (i k : nat) (a b : list byte) :
  (i < length a)%nat -> flip_at i k (a ++ b) = flip_at i k a ++ b.
Proof.
  revert i. induction a as [|x a IH]; intros i Hi; [simpl in Hi; lia|].
  destruct i as [|i].
  - reflexivity.
  - rewrite <- app_comm_cons, !flip_at_S, IH by (simpl in Hi; lia). reflexivity.
Qed.

Lemma flip_at_length (i k : nat) (data : list byte) :
  (i < length data)%nat -> length (flip_at i k data) = length data.
Proof.
  revert i. induction data as [|x data IH]; intros i Hi; [simpl in Hi; lia|].
  destruct i as [|i]; [reflexivity|].
  rewrite flip_at_S. simpl. rewrite IH by (simpl in Hi; lia). reflexivity.
Qed.

(** One inverted bit moves the byte sum by a non-zero amount below 256. *)
Lemma flip_at_sum (i k : nat) (data : list byte) :
  (i < length data)%nat -> (k < 8)%nat ->
  exists d, sum (flip_at i k data) = sum data + d /\ d <> 0 /\ -256 < d < 256.
Proof.
  revert i. induction data as [|x data IH]; intros i Hi Hk; [simpl in Hi; lia|].
  destruct i as [|i].
  - exists (byte_val (flip_bit k x) - byte_val x).
    rewrite flip_at_0. cbn [sum].
    pose proof (flip_bit_val k x Hk).
    pose proof (byte_val_range x). pose proof (byte_val_range (flip_bit k x)).
    repeat split; lia.
  - destruct (IH i) as (d & Hd & Hnz & Hr); [simpl in Hi; lia | exact Hk |].
    exists d. rewrite flip_at_S. cbn [sum]. rewrite Hd. repeat split; lia.
Qed.

Lemma checksum_moves (s d : Z) :
  d <> 0 -> -256 < d < 256 -> (s + d) mod 65536 <> s mod 65536.
Proof.
  intros Hnz Hr Heq.
  assert (H : (s + d - s) mod 65536 = 0).
  { rewrite Zminus_mod, Heq, Z.sub_diag. reflexivity. }
  replace (s + d - s) with d in H by lia.
  apply Z.mod_divide in H; [|lia]. destruct H as [q Hq]. nia.
Qed.

(** A frame whose bytes before the checksum changed their sum, nothing else:
    the call drops it as a checksum failure. *)
Lemma parse_corrupt_frame (r : AudioFrameReceiver)
    (s0 s1 l0 l1 c0 c1 : byte) (payload rest : list byte) :
  buffer r = (header s0 s1 l0 l1 ++ payload ++ [c0; c1]) ++ rest ->
  le16 l0 l1 = len payload ->
  le16 c0 c1 <> _calculate_checksum (header s0 s1 l0 l1 ++ payload) ->
  parse_frame r =
    (NoFrame, set_stats (add_checksum_errors 1 (stats r)) (set_buffer rest r)).
Proof.
  intros Hbuf Hl Hc.
  rewrite (parse_frame_at_sync r s0 s1 l0 l1 c0 c1 payload rest Hbuf Hl).
  apply Z.eqb_neq in Hc. rewrite Hc. reflexivity.
Qed.

Lemma flip_frame_shape (s0 s1 l0 l1 c0 c1 : byte) (payload : list byte) (i k : nat) :
  (k < 8)%nat ->
  in_seq_or_payload i payload ->
  exists s0' s1' payload' d,
    flip_at i k (header s0 s1 l0 l1 ++ payload ++ [c0; c1]) =
      header s0' s1' l0 l1 ++ payload' ++ [c0; c1] /\
    length payload' = length payload /\
    sum (header s0' s1' l0 l1 ++ payload') =
      sum (header s0 s1 l0 l1 ++ payload) + d /\
    d <> 0 /\ -256 < d < 256.
Proof.
  intros Hk Hi.
  assert (Hlt : (i < length (header s0 s1 l0 l1 ++ payload))%nat).
  { rewrite length_app. unfold in_seq_or_payload in Hi. simpl length. lia. }
  destruct (flip_at_sum i k _ Hlt Hk) as (d & Hd & Hnz & Hr).
  assert (Hsplit : flip_at i k (header s0 s1 l0 l1 ++ payload ++ [c0; c1]) =
                   flip_at i k (header s0 s1 l0 l1 ++ payload) ++ [c0; c1]).
  { rewrite app_assoc. apply flip_at_app. exact Hlt. }
  unfold in_seq_or_payload in Hi.
  destruct i as [|[|[|[|[|[|j]]]]]]; try lia.
  - assert (Hb : flip_at 2 k (header s0 s1 l0 l1 ++ payload) =
                 header (flip_bit k s0) s1 l0 l1 ++ payload).
    { unfold header. cbn [app]. rewrite !flip_at_S, flip_at_0. reflexivity. }
    exists (flip_bit k s0), s1, payload, d.
    rewrite Hsplit, Hb, <- app_assoc. rewrite Hb in Hd.
    repeat split; (assumption || reflexivity || lia).
  - assert (Hb : flip_at 3 k (header s0 s1 l0 l1 ++ payload) =
                 header s0 (flip_bit k s1) l0 l1 ++ payload).
    { unfold header. cbn [app]. rewrite !flip_at_S, flip_at_0. reflexivity. }
    exists s0, (flip_bit k s1), payload, d.
    rewrite Hsplit, Hb, <- app_assoc. rewrite Hb in Hd.
    repeat split; (assumption || reflexivity || lia).
  - assert (Hb : flip_at (S (S (S (S (S (S j)))))) k (header s0 s1 l0 l1 ++ payload) =
                 header s0 s1 l0 l1 ++ flip_at j k payload).
    { unfold header. cbn [app]. rewrite !flip_at_S. reflexivity. }
    exists s0, s1, (flip_at j k payload), d.
    rewrite Hsplit, Hb, <- app_assoc. rewrite Hb in Hd.
    repeat split; try (assumption || reflexivity || lia).
    apply flip_at_length. lia.
Qed.

(** ** A frame that has not arrived in full *)

Lemma parse_partial_frame (r : AudioFrameReceiver) (seq : Z) (payload : list byte)
    (k : nat) :
  encodable seq payload ->
  (k < length (encode_frame seq payload))%nat ->
  buffer r = firstn k (encode_frame seq payload) ->
  parse_frame r = (NoFrame, r).
Proof.
  intros Henc Hk Hbuf.
  destruct (encode_frame_shape seq payload Henc)
    as (s0 & s1 & l0 & l1 & c0 & c1 & Hshape & Hs & Hl & Hc).
  rewrite Hshape in Hbuf, Hk. clear Hshape.
  unfold parse_frame.
  destruct k as [|[|k]].
  - rewrite find_sync_short by (rewrite Hbuf; simpl; lia). reflexivity.
  - rewrite find_sync_short by (rewrite Hbuf; simpl; lia). reflexivity.
  - rewrite (find_sync_hit r (firstn k (s0 :: s1 :: l0 :: l1 :: payload ++ [c0; c1])))
      by (rewrite Hbuf; reflexivity).
    cbn [negb].
    assert (Hlen : len (buffer r) = Z.of_nat (S (S k))).
    { unfold len. rewrite Hbuf, length_firstn. lia. }
    rewrite Hlen.
    destruct (Z.ltb_spec (Z.of_nat (S (S k))) FRAME_HEADER_SIZE) as [|H6];
      [reflexivity|].
    unfold FRAME_HEADER_SIZE in H6.
    destruct k as [|[|[|[|k]]]]; try lia.
    replace (slice_to 6 (buffer r)) with (header s0 s1 l0 l1)
      by (rewrite Hbuf; reflexivity).
    cbn [unpack_HHH header]. rewrite Hl.
    replace (Z.of_nat (S (S (S (S (S (S k)))))) <?
             FRAME_HEADER_SIZE + len payload + CHECKSUM_SIZE) with true.
    + reflexivity.
    + symmetry. apply Z.ltb_lt. rewrite !length_app in Hk. simpl length in Hk.
      unfold FRAME_HEADER_SIZE, CHECKSUM_SIZE, len. lia.
Qed.

Lemma frombuffer_samples_of (payload : list byte) :
  Nat.Even (length payload) -> frombuffer_int16 payload = Some (samples_of payload).
Proof.
  intros [k Hk]. revert payload Hk.
  induction k as [|k IH]; intros payload Hk.
  - destruct payload; [reflexivity | simpl in Hk; lia].
  - destruct payload as [|lo [|hi rest]]; simpl in Hk; try lia.
    cbn [frombuffer_int16 samples_of]. rewrite (IH rest) by lia. reflexivity.
Qed.

Lemma tobytes_samples_of (payload : list byte) :
  Nat.Even (length payload) -> tobytes (samples_of payload) = payload.
Proof.
  intros H. apply frombuffer_tobytes. apply frombuffer_samples_of. exact H.
Qed.

(** ** The counters of an accepted frame *)

Lemma sequence_stats_fields (seq : Z) (s : Stats) :
  frames_received (sequence_stats seq s) = frames_received s + 1 /\
  checksum_errors (sequence_stats seq s) = checksum_errors s /\
  sync_errors (sequence_stats seq s) = sync_errors s /\
  bytes_received (sequence_stats seq s) = bytes_received s /\
  last_seq (sequence_stats seq s) = Some seq.
Proof.
  unfold sequence_stats. destruct (last_seq s) as [l|].
  - destruct (negb (seq =? Z.land (l + 1) 65535)); repeat split; reflexivity.
  - repeat split; reflexivity.
Qed.

Lemma sequence_stats_dropped (seq : Z) (s : Stats) :
  frames_dropped (sequence_stats seq s) =
    frames_dropped s +
    match last_seq s with
    | Some l =>
        if seq =? (l + 1) mod 65536 then 0
        else (seq - (l + 1) mod 65536) mod 65536
    | None => 0
    end.
Proof.
  unfold sequence_stats. destruct (last_seq s) as [l|].
  - rewrite !land_FFFF. destruct (seq =? (l + 1) mod 65536); cbn; lia.
  - cbn. lia.
Qed.

Lemma samples_of_range_le (n : nat) :
  forall payload,
    (length payload <= n)%nat ->
    Forall (fun v => -32768 <= v < 32768) (samples_of payload).
Proof.
  induction n as [|n IH]; intros payload Hn.
  - destruct payload; [constructor | simpl in Hn; lia].
  - destruct payload as [|lo [|hi rest]]; cbn [samples_of]; try constructor.
    + apply int16_of_range.
    + apply IH. simpl in Hn. lia.
Qed.

Lemma samples_of_range (payload : list byte) :
  Forall (fun v => -32768 <= v < 32768) (samples_of payload).
Proof.
  apply (samples_of_range_le (length payload)). lia.
Qed.

(** ** One call of [receive_frame] *)

(** The backlog, once the port has been read, starts with a frame of the
    sender. *)
Lemma receive_valid_frame (r r1 : AudioFrameReceiver) (seq : Z)
    (payload rest : list byte) :
  encodable seq payload ->
  read_serial r = Some r1 ->
  buffer r1 = encode_frame seq payload ++ rest ->
  receive_frame r =
    (match frombuffer_int16 payload with
     | Some samples => Samples samples
     | None => Raises ValueError
     end,
     set_stats (sequence_stats seq (stats r1)) (set_buffer rest r1)).
Proof.
  intros Henc Hread Hbuf. unfold receive_frame. rewrite Hread.
  apply parse_valid_frame; assumption.
Qed.

Lemma receive_idle (r : AudioFrameReceiver) (s : Serial) :
  ser r = Some s -> input_buffer s = [] -> receive_frame r = (NoFrame, r).
Proof.
  intros Hser He. unfold receive_frame.
  rewrite (read_serial_idle r s Hser He). reflexivity.
Qed.

Lemma read_serial_arrive (r : AudioFrameReceiver) (data : list byte) :
  ser r = Some (mkSerial []) ->
  data <> [] ->
  read_serial (arrive data r) =
    Some (mkReceiver (sample_rate r) (Some (mkSerial []))
                     (add_bytes_received (len data) (stats r))
                     (buffer r ++ data)).
Proof.
  intros Hser Hne.
  assert (Ha : arrive data r =
               mkReceiver (sample_rate r) (Some (mkSerial data)) (stats r) (buffer r)).
  { unfold arrive. rewrite Hser. reflexivity. }
  rewrite Ha.
  rewrite (read_serial_pending
             (mkReceiver (sample_rate r) (Some (mkSerial data)) (stats r) (buffer r))
             (mkSerial data) eq_refl Hne).
  reflexivity.
Qed.

(** ** The idle-port guard *)

Lemma receive_when_idle (r : AudioFrameReceiver) :
  port_idle r = true -> receive_frame r = (NoFrame, r).
Proof.
  unfold port_idle, receive_frame, read_serial. intros H.
  destruct (ser r) as [s|]; [|discriminate].
  destruct (in_waiting s >? 0); [discriminate | reflexivity].
Qed.

Lemma read_when_not_idle (r : AudioFrameReceiver) :
  port_idle r = false ->
  exists r1, read_serial r = Some r1 /\ buffer r1 = buffer r ++ incoming r.
Proof.
  unfold port_idle, incoming. intros H.
  destruct (ser r) as [s|] eqn:Hser.
  - destruct (input_buffer s) as [|b pending] eqn:Hin.
    + unfold in_waiting in H. rewrite Hin in H. discriminate.
    + eexists. split.
      * apply (read_serial_pending r s Hser). rewrite Hin. discriminate.
      * cbn [buffer]. rewrite Hin. reflexivity.
  - exists r. split; [apply read_serial_detached; exact Hser|].
    rewrite app_nil_r. reflexivity.
Qed.

(** * The frame protocol and the playback policy *)

(** C1.  Framing round trip: the bytes of an encoded frame (any sequence
    number, any payload of even length that the 16-bit length field can
    hold), delivered to a fresh receiver through its port, come back from
    the next [receive_frame] call as the int16 samples of the payload, whose
    bytes are the payload; the frame is consumed and counted. *)
Theorem framing_roundtrip (rate seq : Z) (payload : list byte) :
  encodable seq payload ->
  Nat.Even (length payload) ->
  receive_frame (arrive (encode_frame seq payload) (open (init rate))) =
    (Samples (samples_of payload),
     mkReceiver rate (Some (mkSerial []))
                (mkStats 1 0 0 0 (len (encode_frame seq payload)) (Some seq)) [])
  /\ tobytes (samples_of payload) = payload
  /\ Forall (fun v => -32768 <= v < 32768) (samples_of payload).
Proof.
  intros Henc Heven.
  split; [|split; [apply tobytes_samples_of; exact Heven | apply samples_of_range]].
  rewrite (receive_valid_frame _ _ seq payload []
             Henc (read_serial_arrive (open (init rate)) _ eq_refl
                     (encode_frame_nonempty seq payload))).
  - rewrite (frombuffer_samples_of payload Heven). reflexivity.
  - cbn [buffer open init app]. rewrite app_nil_r. reflexivity.
Qed.

Lemma framing_roundtrip_witness :
  encodable 5 [x01; x02; xff; xff] /\
  Nat.Even (length [x01; x02; xff; xff]) /\
  receive_frame (arrive (encode_frame 5 [x01; x02; xff; xff]) (open (init 48000))) =
    (Samples [513; -1],
     mkReceiver 48000 (Some (mkSerial [])) (mkStats 1 0 0 0 12 (Some 5)) []).
Proof.
  assert (He : encodable 5 [x01; x02; xff; xff])
    by concrete_frame.
  assert (Hv : Nat.Even (length [x01; x02; xff; xff]))
    by concrete_frame.
  split; [exact He | split; [exact Hv|]].
  exact (proj1 (framing_roundtrip 48000 5 [x01; x02; xff; xff] He Hv)).
Defined.





(** What the code does with a frame whose length field is odd and whose
    checksum matches: it takes the frame out of the backlog and accepts it
    like any other (gap counter and [last_seq] updated, [frames_received]
    incremented, [checksum_errors] untouched); the reinterpretation of its
    payload as int16 samples then raises [ValueError], which leaves
    [receive_frame] after the counters were updated. *)
Theorem odd_length_frame_raises (r r1 : AudioFrameReceiver) (seq : Z)
    (payload rest : list byte) :
  encodable seq payload ->
  Nat.Odd (length payload) ->
  read_serial r = Some r1 ->
  buffer r1 = encode_frame seq payload ++ rest ->
  exists r',
    receive_frame r = (Raises ValueError, r') /\
    buffer r' = rest /\
    checksum_errors (stats r') = checksum_errors (stats r) /\
    frames_received (stats r') = frames_received (stats r) + 1 /\
    last_seq (stats r') = Some seq.
Proof.
  intros Henc Hodd Hread Hbuf.
  exists (set_stats (sequence_stats seq (stats r1)) (set_buffer rest r1)).
  rewrite (receive_valid_frame r r1 seq payload rest Henc Hread Hbuf).
  rewrite (frombuffer_odd payload Hodd).
  destruct (read_serial_stats r r1 Hread) as (Hfr & _ & Hce & _ & _).
  destruct (sequence_stats_fields seq (stats r1)) as (Hf & Hc & _ & _ & Hl).
  cbn [stats buffer set_stats set_buffer].
  rewrite Hf, Hc, Hl, Hfr, Hce. repeat split.
Qed.

Lemma odd_length_frame_raises_witness :
  encodable 7 [x01] /\
  Nat.Odd (length [x01]) /\
  exists r',
    receive_frame (arrive (encode_frame 7 [x01]) (open (init 48000))) =
      (Raises ValueError, r') /\
    buffer r' = [] /\
    checksum_errors (stats r') = 0 /\
    frames_received (stats r') = 0 + 1 /\
    last_seq (stats r') = Some 7.
Proof.
  assert (He : encodable 7 [x01]) by concrete_frame.
  assert (Ho : Nat.Odd (length [x01])) by concrete_frame.
  split; [exact He | split; [exact Ho|]].
  exact (odd_length_frame_raises
           (arrive (encode_frame 7 [x01]) (open (init 48000)))
           (mkReceiver 48000 (Some (mkSerial [])) (mkStats 0 0 0 0 9 None)
                       (encode_frame 7 [x01]))
           7 [x01] [] He Ho eq_refl eq_refl).
Defined.

(** C3.  The defect at a concrete input.  The spec asks that a frame with
    an odd length field and a matching checksum be dropped like a checksum
    failure, without an exception; the docstring of [receive_frame] promises
    an array or [None].  A frame with a one-byte payload and a matching
    checksum, delivered to a fresh opened receiver, makes the call raise
    [ValueError] instead: the frame is gone from the backlog, it is counted
    in [frames_received] and recorded in [last_seq], and [checksum_errors]
    stays at zero. *)
Lemma odd_length_frame_not_dropped :
  receive_frame (arrive (encode_frame 7 [x01]) (open (init 48000))) =
    (Raises ValueError,
     mkReceiver 48000 (Some (mkSerial [])) (mkStats 1 0 0 0 9 (Some 7)) []).
Proof.
  vm_compute. reflexivity.
Qed.

(** A frame with one bit inverted in its sequence number or payload, at the
    head of the backlog a call parses. *)
Lemma flipped_frame_parsed (r r1 : AudioFrameReceiver) (seq : Z)
    (payload rest : list byte) (i k : nat) :
  encodable seq payload ->
  in_seq_or_payload i payload ->
  (k < 8)%nat ->
  read_serial r = Some r1 ->
  buffer r1 = flip_at i k (encode_frame seq payload) ++ rest ->
  exists r',
    receive_frame r = (NoFrame, r') /\
    buffer r' = rest /\
    checksum_errors (stats r') = checksum_errors (stats r) + 1 /\
    last_seq (stats r') = last_seq (stats r) /\
    frames_received (stats r') = frames_received (stats r) /\
    frames_dropped (stats r') = frames_dropped (stats r).
Proof.
  intros Henc Hi Hk Hread Hbuf.
  destruct (encode_frame_shape seq payload Henc)
    as (s0 & s1 & l0 & l1 & c0 & c1 & Hshape & Hs & Hl & Hc).
  destruct (flip_frame_shape s0 s1 l0 l1 c0 c1 payload i k Hk Hi)
    as (s0' & s1' & payload' & d & Hflip & Hlen' & Hsum & Hnz & Hr).
  rewrite Hshape, Hflip in Hbuf.
  assert (Hl' : le16 l0 l1 = len payload') by (unfold len; rewrite Hlen'; exact Hl).
  assert (Hc' : le16 c0 c1 <> _calculate_checksum (header s0' s1' l0 l1 ++ payload')).
  { rewrite Hc. unfold _calculate_checksum. rewrite !land_FFFF, Hsum.
    intros Heq. symmetry in Heq. revert Heq. apply checksum_moves; assumption. }
  rewrite <- !app_assoc in Hbuf. rewrite (app_assoc _ _ rest), (app_assoc _ _ rest) in Hbuf.
  rewrite <- (app_assoc (header s0' s1' l0 l1)) in Hbuf.
  exists (set_stats (add_checksum_errors 1 (stats r1)) (set_buffer rest r1)).
  unfold receive_frame. rewrite Hread.
  rewrite (parse_corrupt_frame r1 s0' s1' l0 l1 c0 c1 payload' rest Hbuf Hl' Hc').
  destruct (read_serial_stats r r1 Hread) as (Hfr & Hfd & Hce & _ & Hls).
  cbn. rewrite Hfr, Hfd, Hce, Hls. repeat split.
Qed.

(** C4 (amended).  A well-formed frame with one bit inverted in its
    sequence-number field or in its payload, at the head of the backlog (the
    buffered bytes followed by the bytes waiting at the port): the call
    returns nothing and leaves [last_seq] (and the gap and frame counters)
    unchanged.  Unless the port is attached and idle, the call takes the
    frame out of the backlog and increments [checksum_errors] by exactly
    one; with the port attached and idle it returns at once and changes
    nothing. *)
Theorem checksum_sensitivity (r : AudioFrameReceiver) (seq : Z)
    (payload rest : list byte) (i k : nat) :
  encodable seq payload ->
  in_seq_or_payload i payload ->
  (k < 8)%nat ->
  buffer r ++ incoming r = flip_at i k (encode_frame seq payload) ++ rest ->
  fst (receive_frame r) = NoFrame /\
  last_seq (stats (snd (receive_frame r))) = last_seq (stats r) /\
  frames_received (stats (snd (receive_frame r))) = frames_received (stats r) /\
  frames_dropped (stats (snd (receive_frame r))) = frames_dropped (stats r) /\
  (port_idle r = true -> snd (receive_frame r) = r) /\
  (port_idle r = false ->
     buffer (snd (receive_frame r)) = rest /\
     checksum_errors (stats (snd (receive_frame r))) = checksum_errors (stats r) + 1).
Proof.
  intros Henc Hi Hk Hbuf.
  destruct (port_idle r) eqn:Hidle.
  - rewrite (receive_when_idle r Hidle). cbn [fst snd].
    repeat split; discriminate.
  - destruct (read_when_not_idle r Hidle) as (r1 & Hread & Hb1).
    rewrite Hbuf in Hb1.
    destruct (flipped_frame_parsed r r1 seq payload rest i k Henc Hi Hk Hread Hb1)
      as (r' & Hrecv & Hb & Hce & Hls & Hfr & Hfd).
    rewrite Hrecv. cbn [fst snd].
    repeat split; try assumption; discriminate.
Qed.

Lemma checksum_sensitivity_witness :
  encodable 5 [x01; x02; xff; xff] /\
  in_seq_or_payload 7 [x01; x02; xff; xff] /\
  (3 < 8)%nat /\
  port_idle (arrive (flip_at 7 3 (encode_frame 5 [x01; x02; xff; xff]))
                    (open (init 48000))) = false /\
  fst (receive_frame
         (arrive (flip_at 7 3 (encode_frame 5 [x01; x02; xff; xff]))
                 (open (init 48000)))) = NoFrame /\
  last_seq
    (stats (snd (receive_frame
                   (arrive (flip_at 7 3 (encode_frame 5 [x01; x02; xff; xff]))
                           (open (init 48000)))))) = None /\
  buffer (snd (receive_frame
                 (arrive (flip_at 7 3 (encode_frame 5 [x01; x02; xff; xff]))
                         (open (init 48000))))) = [] /\
  checksum_errors
    (stats (snd (receive_frame
                   (arrive (flip_at 7 3 (encode_frame 5 [x01; x02; xff; xff]))
                           (open (init 48000)))))) = 0 + 1.
Proof.
  assert (He : encodable 5 [x01; x02; xff; xff]) by concrete_frame.
  assert (Hi : in_seq_or_payload 7 [x01; x02; xff; xff]) by concrete_frame.
  assert (Hk : (3 < 8)%nat) by lia.
  split; [exact He | split; [exact Hi | split; [exact Hk | split; [reflexivity|]]]].
  destruct (checksum_sensitivity
              (arrive (flip_at 7 3 (encode_frame 5 [x01; x02; xff; xff]))
                      (open (init 48000)))
              5 [x01; x02; xff; xff] [] 7 3 He Hi Hk eq_refl)
    as (Hnone & Hls & _ & _ & _ & Hbusy).
  destruct (Hbusy eq_refl) as [Hb Hce].
  split; [exact Hnone | split; [exact Hls | split; [exact Hb | exact Hce]]].
Defined.

(** C4, as stated, fails for the magic and length fields, and while the port
    is idle.  Bit 0 of the first magic byte inverted: the frame is skipped
    byte by byte as sync errors and [checksum_errors] stays at zero.  Bit 0
    of the first length byte inverted: the call waits for a longer frame,
    consumes nothing and counts nothing.  A frame with a payload bit
    inverted that arrived behind a good frame in one read: once the good
    frame is returned the port is idle, and the next call returns at once
    with the corrupted frame still at the head of the backlog and no
    checksum error counted. *)
Lemma header_flip_not_checksum_error :
  receive_frame
    (arrive (flip_at 0 0 (encode_frame 5 [x01; x02; xff; xff])) (open (init 48000))) =
    (NoFrame,
     mkReceiver 48000 (Some (mkSerial [])) (mkStats 0 0 0 11 12 None) [x03]) /\
  receive_frame
    (arrive (flip_at 4 0 (encode_frame 5 [x01; x02; xff; xff])) (open (init 48000))) =
    (NoFrame,
     mkReceiver 48000 (Some (mkSerial [])) (mkStats 0 0 0 0 12 None)
                (flip_at 4 0 (encode_frame 5 [x01; x02; xff; xff]))) /\
  buffer after_good_before_flipped = flip_at 7 3 (encode_frame 6 [x10; x80]) /\
  receive_frame after_good_before_flipped = (NoFrame, after_good_before_flipped) /\
  checksum_errors (stats after_good_before_flipped) = 0.
Proof.
  vm_compute. repeat split.
Qed.

Lemma encode_frame_marker (seq : Z) (payload : list byte) :
  exists tl, encode_frame seq payload = x55 :: xaa :: tl.
Proof.
  unfold encode_frame, frame_body.
  change (pack_H FRAME_MAGIC) with [x55; xaa].
  eexists. cbn [app]. reflexivity.
Qed.

(** Noise without a marker in front of a valid frame, at the head of the
    backlog a call parses. *)
Lemma noise_then_frame_parsed (r r1 : AudioFrameReceiver) (seq : Z)
    (noise payload rest : list byte) :
  encodable seq payload ->
  Nat.Even (length payload) ->
  no_magic noise = true ->
  read_serial r = Some r1 ->
  buffer r1 = noise ++ encode_frame seq payload ++ rest ->
  exists r',
    receive_frame r = (Samples (samples_of payload), r') /\
    tobytes (samples_of payload) = payload /\
    buffer r' = rest /\
    sync_errors (stats r') = sync_errors (stats r) + len noise /\
    checksum_errors (stats r') = checksum_errors (stats r).
Proof.
  intros Henc Heven Hn Hread Hbuf.
  destruct (encode_frame_marker seq payload) as [tl Htl].
  set (r2 := set_stats (set_sync_errors (sync_errors (stats r1) + len noise) (stats r1))
                       (set_buffer (x55 :: xaa :: tl ++ rest) r1)).
  assert (Hskip : parse_frame r1 = parse_frame r2).
  { apply parse_frame_skip_noise; [exact Hn|]. rewrite Hbuf, Htl. reflexivity. }
  assert (Hb2 : buffer r2 = encode_frame seq payload ++ rest).
  { rewrite Htl. reflexivity. }
  exists (set_stats (sequence_stats seq (stats r2)) (set_buffer rest r2)).
  unfold receive_frame. rewrite Hread, Hskip.
  rewrite (parse_valid_frame r2 seq payload rest Henc Hb2).
  rewrite (frombuffer_samples_of payload Heven).
  destruct (read_serial_stats r r1 Hread) as (_ & _ & Hce & Hse & _).
  destruct (sequence_stats_fields seq (stats r2)) as (_ & Hc & Hs & _ & _).
  cbn [stats buffer set_stats set_buffer]. rewrite Hc, Hs.
  unfold r2. cbn. rewrite Hse, Hce.
  repeat split. apply tobytes_samples_of. exact Heven.
Qed.

(** C5 (amended).  Noise that contains no magic marker (no two adjacent
    bytes 0x55, 0xAA) in front of a valid frame, at the head of the backlog
    (the buffered bytes followed by the bytes waiting at the port): unless
    the port is attached and idle, the call still returns that frame, and
    [sync_errors] grows by exactly the number of noise bytes; with the port
    attached and idle the call returns nothing and changes nothing. *)
Theorem resync_after_noise (r : AudioFrameReceiver) (seq : Z)
    (noise payload rest : list byte) :
  encodable seq payload ->
  Nat.Even (length payload) ->
  no_magic noise = true ->
  buffer r ++ incoming r = noise ++ encode_frame seq payload ++ rest ->
  (port_idle r = true -> receive_frame r = (NoFrame, r)) /\
  (port_idle r = false ->
     fst (receive_frame r) = Samples (samples_of payload) /\
     tobytes (samples_of payload) = payload /\
     buffer (snd (receive_frame r)) = rest /\
     sync_errors (stats (snd (receive_frame r))) = sync_errors (stats r) + len noise /\
     checksum_errors (stats (snd (receive_frame r))) = checksum_errors (stats r)).
Proof.
  intros Henc Heven Hn Hbuf. split.
  - apply receive_when_idle.
  - intros Hidle.
    destruct (read_when_not_idle r Hidle) as (r1 & Hread & Hb1).
    rewrite Hbuf in Hb1.
    destruct (noise_then_frame_parsed r r1 seq noise payload rest
                Henc Heven Hn Hread Hb1)
      as (r' & Hrecv & Htb & Hb & Hse & Hce).
    rewrite Hrecv. cbn [fst snd]. repeat split; assumption.
Qed.

Lemma resync_after_noise_witness :
  encodable 5 [x01; x02; xff; xff] /\
  Nat.Even (length [x01; x02; xff; xff]) /\
  no_magic [x55; x01; x00; xaa] = true /\
  port_idle
    (arrive ([x55; x01; x00; xaa] ++ encode_frame 5 [x01; x02; xff; xff] ++ [])
            (open (init 48000))) = false /\
  fst (receive_frame
         (arrive ([x55; x01; x00; xaa] ++ encode_frame 5 [x01; x02; xff; xff] ++ [])
                 (open (init 48000)))) = Samples [513; -1] /\
  sync_errors
    (stats (snd (receive_frame
                   (arrive ([x55; x01; x00; xaa] ++
                            encode_frame 5 [x01; x02; xff; xff] ++ [])
                           (open (init 48000)))))) = 0 + 4.
Proof.
  assert (He : encodable 5 [x01; x02; xff; xff]) by concrete_frame.
  assert (Hv : Nat.Even (length [x01; x02; xff; xff])) by concrete_frame.
  split; [exact He | split; [exact Hv | split; [reflexivity | split; [reflexivity|]]]].
  destruct (proj2 (resync_after_noise
                     (arrive ([x55; x01; x00; xaa] ++
                              encode_frame 5 [x01; x02; xff; xff] ++ [])
                             (open (init 48000)))
                     5 [x55; x01; x00; xaa] [x01; x02; xff; xff] []
                     He Hv eq_refl eq_refl) eq_refl)
    as (Hs & _ & _ & Hse & _).
  split; [exact Hs | exact Hse].
Defined.

(** C5, as stated, fails.  Six noise bytes that hold a marker but no frame
    with a valid checksum (the frame read at that marker fails its
    checksum): the call returns nothing, [sync_errors] does not move, the
    first four bytes of the real frame are consumed with the noise, and the
    frame never comes out of later calls either.  And noise without a marker
    in front of a valid frame, left in the backlog behind a frame that was
    returned: while the port is idle the call returns nothing and
    [sync_errors] does not move. *)
Lemma noise_marker_swallows_frame :
  receive_frame
    (arrive (marker_noise ++ encode_frame 5 [x01; x02; xff; xff]) (open (init 48000))) =
    (NoFrame,
     mkReceiver 48000 (Some (mkSerial [])) (mkStats 0 0 1 0 18 None)
                (skipn 4 (encode_frame 5 [x01; x02; xff; xff]))) /\
  fst (receive_frames 3
         (set_buffer (marker_noise ++ encode_frame 5 [x01; x02; xff; xff])
                     (init 48000))) =
    [NoFrame; NoFrame; NoFrame] /\
  buffer after_good_before_noise = [x00; x55; x01] ++ encode_frame 6 [x10; x80] /\
  receive_frame after_good_before_noise = (NoFrame, after_good_before_noise) /\
  sync_errors (stats after_good_before_noise) = 0.
Proof.
  vm_compute. repeat split.
Qed.

(** C6.  Sequence gap accounting: a frame that passes its checksum while
    [last_seq] is set adds [(seq - expected) mod 65536] to the gap counter
    when [seq] differs from [expected = (last_seq + 1) mod 65536] and
    nothing when it is the expected one; [last_seq] becomes [seq].  With
    [last_seq = 5] and [seq = 9] the gap counter grows by exactly 3. *)
Theorem sequence_gap_accounting (r r1 : AudioFrameReceiver) (seq last : Z)
    (payload rest : list byte) :
  encodable seq payload ->
  read_serial r = Some r1 ->
  buffer r1 = encode_frame seq payload ++ rest ->
  last_seq (stats r) = Some last ->
  let expected := (last + 1) mod 65536 in
  let r' := snd (receive_frame r) in
  frames_dropped (stats r') =
    frames_dropped (stats r) +
    (if seq =? expected then 0 else (seq - expected) mod 65536) /\
  last_seq (stats r') = Some seq /\
  (last = 5 -> seq = 9 -> frames_dropped (stats r') = frames_dropped (stats r) + 3).
Proof.
  intros Henc Hread Hbuf Hlast expected r'.
  destruct (read_serial_stats r r1 Hread) as (_ & Hfd & _ & _ & Hls).
  assert (Hr' : stats r' = sequence_stats seq (stats r1)).
  { unfold r'. rewrite (receive_valid_frame r r1 seq payload rest Henc Hread Hbuf).
    reflexivity. }
  assert (Hd : frames_dropped (stats r') =
               frames_dropped (stats r) +
               (if seq =? expected then 0 else (seq - expected) mod 65536)).
  { rewrite Hr', sequence_stats_dropped, Hls, Hlast, Hfd. reflexivity. }
  split; [exact Hd | split].
  - rewrite Hr'. apply sequence_stats_fields.
  - intros H5 H9. rewrite Hd. unfold expected. subst last seq. reflexivity.
Qed.

Lemma sequence_gap_accounting_witness :
  encodable 9 [x03; x04] /\
  last_seq (stats (arrive (encode_frame 9 [x03; x04]) after_seq_5)) = Some 5 /\
  frames_dropped
    (stats (snd (receive_frame (arrive (encode_frame 9 [x03; x04]) after_seq_5)))) =
    0 + 3 /\
  last_seq
    (stats (snd (receive_frame (arrive (encode_frame 9 [x03; x04]) after_seq_5)))) =
    Some 9.
Proof.
  assert (He : encodable 9 [x03; x04]) by concrete_frame.
  split; [exact He | split; [reflexivity|]].
  pose proof (sequence_gap_accounting
                (arrive (encode_frame 9 [x03; x04]) after_seq_5)
                (mkReceiver 48000 (Some (mkSerial [])) (mkStats 1 0 0 0 20 (Some 5))
                            (encode_frame 9 [x03; x04]))
                9 5 [x03; x04] [] He eq_refl eq_refl eq_refl) as H.
  split; [exact (proj2 (proj2 H) eq_refl eq_refl) | exact (proj1 (proj2 H))].
Defined.

(** ** A frame delivered in two parts *)

Lemma receive_second_part (r1 : AudioFrameReceiver) (seq : Z) (payload : list byte)
    (k : nat) :
  encodable seq payload ->
  Nat.Even (length payload) ->
  ser r1 = Some (mkSerial []) ->
  buffer r1 = firstn k (encode_frame seq payload) ->
  (k < length (encode_frame seq payload))%nat ->
  exists r2,
    receive_frame (arrive (skipn k (encode_frame seq payload)) r1) =
      (Samples (samples_of payload), r2) /\
    buffer r2 = [] /\
    ser r2 = Some (mkSerial []) /\
    frames_received (stats r2) = frames_received (stats r1) + 1.
Proof.
  intros Henc Heven Hser Hbuf Hk.
  assert (Hne : skipn k (encode_frame seq payload) <> []).
  { intros He. apply (f_equal (@length byte)) in He.
    rewrite length_skipn in He. change (length (@nil byte)) with 0%nat in He. lia. }
  pose proof (read_serial_arrive r1 _ Hser Hne) as Hread.
  set (r1' := mkReceiver _ _ _ _) in Hread.
  assert (Hb : buffer r1' = encode_frame seq payload ++ []).
  { unfold r1'. cbn [buffer]. rewrite Hbuf, firstn_skipn, app_nil_r. reflexivity. }
  exists (set_stats (sequence_stats seq (stats r1')) (set_buffer [] r1')).
  rewrite (receive_valid_frame _ r1' seq payload [] Henc Hread Hb).
  rewrite (frombuffer_samples_of payload Heven).
  destruct (sequence_stats_fields seq (stats r1')) as (Hf & _).
  cbn [stats buffer ser set_stats set_buffer]. rewrite Hf.
  repeat split.
Qed.

(** C7.  Partial-frame patience: one valid frame delivered in two parts,
    split before any of its bytes but the last.  The call after the first
    part returns nothing and keeps the partial bytes in the backlog; the
    call after the second part returns the frame, once: the backlog is then
    empty and the next call returns nothing. *)
Theorem partial_frame_patience (r : AudioFrameReceiver) (seq : Z)
    (payload : list byte) (k : nat) :
  encodable seq payload ->
  Nat.Even (length payload) ->
  ser r = Some (mkSerial []) ->
  buffer r = [] ->
  (k < length (encode_frame seq payload))%nat ->
  exists r1 r2,
    receive_frame (arrive (firstn k (encode_frame seq payload)) r) = (NoFrame, r1) /\
    buffer r1 = firstn k (encode_frame seq payload) /\
    frames_received (stats r1) = frames_received (stats r) /\
    receive_frame (arrive (skipn k (encode_frame seq payload)) r1) =
      (Samples (samples_of payload), r2) /\
    tobytes (samples_of payload) = payload /\
    buffer r2 = [] /\
    frames_received (stats r2) = frames_received (stats r) + 1 /\
    receive_frame r2 = (NoFrame, r2).
Proof.
  intros Henc Heven Hser Hbuf Hk.
  assert (Hfirst : exists r1,
            receive_frame (arrive (firstn k (encode_frame seq payload)) r) = (NoFrame, r1) /\
            buffer r1 = firstn k (encode_frame seq payload) /\
            ser r1 = Some (mkSerial []) /\
            frames_received (stats r1) = frames_received (stats r)).
  { destruct k as [|k].
    - exists (arrive [] r).
      assert (Ha : ser (arrive [] r) = Some (mkSerial [])).
      { unfold arrive. rewrite Hser. reflexivity. }
      cbn [firstn]. rewrite (receive_idle _ _ Ha eq_refl).
      repeat split; try exact Ha; unfold arrive; rewrite Hser; cbn; auto.
    - assert (Hne : firstn (S k) (encode_frame seq payload) <> []).
      { destruct (encode_frame_marker seq payload) as [tl Htl]. rewrite Htl.
        discriminate. }
      pose proof (read_serial_arrive r _ Hser Hne) as Hread.
      set (r1 := mkReceiver _ _ _ _) in Hread.
      assert (Hb : buffer r1 = firstn (S k) (encode_frame seq payload)).
      { unfold r1. cbn [buffer]. rewrite Hbuf. reflexivity. }
      exists r1. unfold receive_frame. rewrite Hread.
      rewrite (parse_partial_frame r1 seq payload (S k) Henc Hk Hb).
      repeat split; try exact Hb; reflexivity. }
  destruct Hfirst as (r1 & H1 & Hb1 & Hs1 & Hf1).
  destruct (receive_second_part r1 seq payload k Henc Heven Hs1 Hb1 Hk)
    as (r2 & H2 & Hb2 & Hs2 & Hf2).
  exists r1, r2. repeat split; try assumption.
  - apply tobytes_samples_of. exact Heven.
  - rewrite Hf2, Hf1. reflexivity.
  - apply (receive_idle r2 _ Hs2). reflexivity.
Qed.

Lemma partial_frame_patience_witness :
  encodable 5 [x01; x02; xff; xff] /\
  Nat.Even (length [x01; x02; xff; xff]) /\
  (7 < length (encode_frame 5 [x01; x02; xff; xff]))%nat /\
  exists r1 r2,
    receive_frame (arrive (firstn 7 (encode_frame 5 [x01; x02; xff; xff]))
                          (open (init 48000))) = (NoFrame, r1) /\
    buffer r1 = firstn 7 (encode_frame 5 [x01; x02; xff; xff]) /\
    frames_received (stats r1) = 0 /\
    receive_frame (arrive (skipn 7 (encode_frame 5 [x01; x02; xff; xff])) r1) =
      (Samples [513; -1], r2) /\
    tobytes [513; -1] = [x01; x02; xff; xff] /\
    buffer r2 = [] /\
    frames_received (stats r2) = 0 + 1 /\
    receive_frame r2 = (NoFrame, r2).
Proof.
  assert (He : encodable 5 [x01; x02; xff; xff])
    by concrete_frame.
  assert (Hv : Nat.Even (length [x01; x02; xff; xff]))
    by concrete_frame.
  assert (Hk : (7 < length (encode_frame 5 [x01; x02; xff; xff]))%nat)
    by (simpl; lia).
  split; [exact He | split; [exact Hv | split; [exact Hk|]]].
  exact (partial_frame_patience (open (init 48000)) 5 [x01; x02; xff; xff] 7
           He Hv eq_refl eq_refl Hk).
Defined.

(** C8.  Saturation drop: when the stream reports fewer writable frames
    than twice the number of samples of the payload, [play] (with its
    default [drop_if_buffer_full]) returns [False], does not call the
    stream's [write] (the stream is left as it was) and increments
    [frames_dropped] by one. *)
Theorem saturation_drop (p : Player.AudioPlayer) (s : Player.Stream)
    (audio_data : list Z) (available : Z) :
  Player.stream p = Some s ->
  Player.get_write_available s = Some available ->
  available < 2 * Z.of_nat (length audio_data) ->
  exists p',
    Player.play audio_data true p = (false, p') /\
    Player.stream p' = Some s /\
    Player.frames_dropped p' = Player.frames_dropped p + 1 /\
    Player.sample_rate p' = Player.sample_rate p.
Proof.
  intros Hs Ha Hlt. exists (Player.add_frames_dropped 1 p).
  unfold Player.play. rewrite Hs, Ha.
  replace (available <? Z.of_nat (length audio_data) * 2) with true
    by (symmetry; apply Z.ltb_lt; lia).
  repeat split. exact Hs.
Qed.

Lemma saturation_drop_witness :
  3 < 2 * Z.of_nat (length [513; -1]) /\
  exists p',
    Player.play [513; -1] true (sample_player saturated_stream) = (false, p') /\
    Player.stream p' = Some saturated_stream /\
    Player.frames_dropped p' = 0 + 1 /\
    Player.sample_rate p' = 48000.
Proof.
  assert (Hlt : 3 < 2 * Z.of_nat (length [513; -1])) by (simpl; lia).
  split; [exact Hlt|].
  exact (saturation_drop (sample_player saturated_stream) saturated_stream
           [513; -1] 3 eq_refl eq_refl Hlt).
Defined.



(** ** The latency estimate in doubles *)

Lemma rounds_zero (rnd : Q -> Q) :
  rounds_like_double rnd -> (rnd 0 == 0)%Q.
Proof.
  intros [_ Hfix]. apply (Hfix 0). lia.
Qed.

Lemma rounds_nonneg (rnd : Q -> Q) (x : Q) :
  rounds_like_double rnd -> (0 <= x)%Q -> (0 <= rnd x)%Q.
Proof.
  intros Hr Hx. rewrite <- (rounds_zero rnd Hr). apply (proj1 Hr). exact Hx.
Qed.

Lemma rounds_le_integer (rnd : Q -> Q) (x : Q) (z : Z) :
  rounds_like_double rnd ->
  - 2 ^ 53 <= z <= 2 ^ 53 ->
  (x <= inject_Z z)%Q -> (rnd x <= inject_Z z)%Q.
Proof.
  intros Hr Hz Hx. rewrite <- (proj2 Hr z Hz). apply (proj1 Hr). exact Hx.
Qed.

Lemma rounded_rate_positive (rnd : Q -> Q) (rate : Z) :
  rounds_like_double rnd -> 0 < rate -> (0 < rnd (inject_Z rate))%Q.
Proof.
  intros Hr Hrate.
  apply Qlt_le_trans with (y := inject_Z 1); [reflexivity|].
  rewrite <- (proj2 Hr 1) by lia. apply (proj1 Hr). rewrite <- Zle_Qle. lia.
Qed.

(** The rounded product [queued * 1000.0] for a queued count up to 240. *)
Lemma rounded_product_bounds (rnd : Q -> Q) (queued : Z) :
  rounds_like_double rnd ->
  0 <= queued <= 240 ->
  (0 <= rnd (rnd (inject_Z queued) * 1000) <= inject_Z (240 * 1000))%Q.
Proof.
  intros Hr Hq.
  assert (Hq1 : (rnd (inject_Z queued) == inject_Z queued)%Q)
    by (apply (proj2 Hr); lia).
  split.
  - apply (rounds_nonneg rnd _ Hr). rewrite Hq1.
    change 1000%Q with (inject_Z 1000). rewrite <- inject_Z_mult.
    change 0%Q with (inject_Z 0). rewrite <- Zle_Qle. lia.
  - apply (rounds_le_integer rnd _ _ Hr); [lia|]. rewrite Hq1.
    change 1000%Q with (inject_Z 1000). rewrite <- inject_Z_mult, <- Zle_Qle. lia.
Qed.

(** Without rounding, the estimate is the exact quotient. *)
Lemma rounded_with_identity (p : Player.AudioPlayer) :
  (get_buffer_latency_ms_rounded (fun q => q) p == Player.get_buffer_latency_ms p)%Q.
Proof.
  unfold get_buffer_latency_ms_rounded, Player.get_buffer_latency_ms.
  destruct (Player.stream p) as [s|]; [|reflexivity].
  destruct (Player.get_write_available s) as [a|]; [|reflexivity].
  destruct (Player.sample_rate p =? 0); [reflexivity|].
  change 1000%Q with (inject_Z 1000). rewrite <- inject_Z_mult. reflexivity.
Qed.

(** C10 (amended).  For every capacity the stream reports that is not
    negative, and a positive sample rate, the queued-latency estimate is not
    negative and never exceeds the double that [240 * 1000.0 / sample_rate]
    comes to, which at 48000 Hz is exactly 5 ms; it is 0 when the capacity
    query fails or there is no stream.  The roundings of the double
    arithmetic are explicit: [rnd] is any rounding that keeps the order and
    the integers up to 2^53. *)
Theorem buffer_latency_bounds (rnd : Q -> Q) (p : Player.AudioPlayer) :
  rounds_like_double rnd ->
  0 < Player.sample_rate p ->
  (forall s available,
     Player.stream p = Some s ->
     Player.get_write_available s = Some available -> 0 <= available) ->
  (0 <= get_buffer_latency_ms_rounded rnd p)%Q /\
  (get_buffer_latency_ms_rounded rnd p <=
     rnd (inject_Z (240 * 1000) / rnd (inject_Z (Player.sample_rate p))))%Q /\
  (Player.sample_rate p = 48000 -> (get_buffer_latency_ms_rounded rnd p <= 5)%Q) /\
  (forall s, Player.stream p = Some s -> Player.get_write_available s = None ->
     get_buffer_latency_ms_rounded rnd p = 0%Q) /\
  (Player.stream p = None -> get_buffer_latency_ms_rounded rnd p = 0%Q).
Proof.
  intros Hr Hrate Hcap.
  pose proof (rounded_rate_positive rnd _ Hr Hrate) as Hpos.
  assert (Htop : (0 <= rnd (inject_Z (240 * 1000) /
                            rnd (inject_Z (Player.sample_rate p))))%Q).
  { apply (rounds_nonneg rnd _ Hr). apply Qle_shift_div_l; [exact Hpos|].
    rewrite Qmult_0_l. discriminate. }
  assert (Hb : (0 <= get_buffer_latency_ms_rounded rnd p)%Q /\
               (get_buffer_latency_ms_rounded rnd p <=
                  rnd (inject_Z (240 * 1000) /
                       rnd (inject_Z (Player.sample_rate p))))%Q).
  { unfold get_buffer_latency_ms_rounded.
    destruct (Player.stream p) as [s|] eqn:Hs; [|split; [apply Qle_refl | exact Htop]].
    destruct (Player.get_write_available s) as [a|] eqn:Ha;
      [|split; [apply Qle_refl | exact Htop]].
    pose proof (Hcap s a eq_refl Ha) as H0.
    replace (Player.sample_rate p =? 0) with false
      by (symmetry; apply Z.eqb_neq; lia).
    destruct (rounded_product_bounds rnd (Z.max 0 (60 * 4 - a)) Hr ltac:(lia))
      as [Hlo Hhi].
    split.
    - apply (rounds_nonneg rnd _ Hr). apply Qle_shift_div_l; [exact Hpos|].
      rewrite Qmult_0_l. exact Hlo.
    - apply (proj1 Hr). unfold Qdiv. apply Qmult_le_compat_r; [exact Hhi|].
      apply Qinv_le_0_compat. apply Qlt_le_weak. exact Hpos. }
  destruct Hb as [Hlo Hhi].
  split; [exact Hlo | split; [exact Hhi | split; [|split]]].
  - intros H48. eapply Qle_trans; [exact Hhi|]. rewrite H48.
    apply (rounds_le_integer rnd _ 5 Hr); [lia|].
    apply Qle_shift_div_r.
    + apply (rounded_rate_positive rnd 48000 Hr). lia.
    + rewrite (proj2 Hr 48000) by lia. discriminate.
  - intros s Hs Ha. unfold get_buffer_latency_ms_rounded. rewrite Hs, Ha. reflexivity.
  - intros Hs. unfold get_buffer_latency_ms_rounded. rewrite Hs. reflexivity.
Qed.

Lemma buffer_latency_bounds_witness :
  rounds_like_double (fun q => q) /\
  0 < Player.sample_rate (sample_player stream_60_free) /\
  (forall s available,
     Player.stream (sample_player stream_60_free) = Some s ->
     Player.get_write_available s = Some available -> 0 <= available) /\
  (0 <= get_buffer_latency_ms_rounded (fun q => q) (sample_player stream_60_free))%Q /\
  (get_buffer_latency_ms_rounded (fun q => q) (sample_player stream_60_free) <= 5)%Q.
Proof.
  assert (Hd : rounds_like_double (fun q => q)).
  { split; [intros x y H; exact H | intros z _; reflexivity]. }
  assert (Hr : 0 < Player.sample_rate (sample_player stream_60_free))
    by (simpl; lia).
  assert (Hc : forall s available,
             Player.stream (sample_player stream_60_free) = Some s ->
             Player.get_write_available s = Some available -> 0 <= available).
  { intros s a Hs Ha. inversion Hs; subst. inversion Ha; subst. lia. }
  pose proof (buffer_latency_bounds (fun q => q) _ Hd Hr Hc) as H.
  split; [exact Hd | split; [exact Hr | split; [exact Hc | split]]].
  - exact (proj1 H).
  - exact (proj1 (proj2 (proj2 H)) eq_refl).
Defined.

(** C10, as stated, fails: the queued count is clamped below at zero, not
    above at 240.  A stream that reports -1 writable frames gives 241 queued
    frames and, at 48000 Hz, an estimate of 241/48 ms, above 5 ms; the
    double nearest to it is above 5 as well. *)
Lemma negative_capacity_exceeds_bound :
  Player.get_write_available stream_minus_1_free = Some (-1) /\
  (5 < Player.get_buffer_latency_ms (sample_player stream_minus_1_free))%Q /\
  (5 < get_buffer_latency_ms_rounded (fun q => q) (sample_player stream_minus_1_free))%Q.
Proof.
  split; [reflexivity | split; reflexivity].
Qed.

(** * Further properties of the receiver *)

(** ** The sync search on any backlog *)

Lemma le16_magic (b0 b1 : byte) :
  (le16 b0 b1 =? FRAME_MAGIC) = true -> b0 = x55 /\ b1 = xaa.
Proof.
  intros H. apply Z.eqb_eq in H.
  pose proof (pack_le16 b0 b1) as Hp. rewrite H in Hp.
  change (pack_H FRAME_MAGIC) with [x55; xaa] in Hp.
  inversion Hp. split; reflexivity.
Qed.

Lemma no_magic_cons (b0 b1 : byte) (tl : list byte) :
  no_magic (b0 :: b1 :: tl) = negb (le16 b0 b1 =? FRAME_MAGIC) && no_magic (b1 :: tl).
Proof. reflexivity. Qed.

Lemma find_sync_loop_spec (buf : list byte) :
  forall errs,
  exists skipped rest found,
    find_sync_loop buf errs = (found, rest, errs + len skipped) /\
    buf = skipped ++ rest /\
    no_magic (skipped ++ firstn 1 rest) = true /\
    (if found then exists tl, rest = x55 :: xaa :: tl else (length rest < 2)%nat).
Proof.
  induction buf as [|b0 tl IH]; intros errs.
  - exists [], [], false. cbn. rewrite Z.add_0_r. repeat split. lia.
  - destruct tl as [|b1 tl'].
    + exists [], [b0], false. cbn. rewrite Z.add_0_r. repeat split. lia.
    + rewrite find_sync_loop_step.
      destruct (le16 b0 b1 =? FRAME_MAGIC) eqn:Hm.
      * exists [], (b0 :: b1 :: tl'), true.
        destruct (le16_magic b0 b1 Hm) as [-> ->].
        cbn. rewrite Z.add_0_r. repeat split. exists tl'. reflexivity.
      * destruct (IH (errs + 1)) as (skipped & rest & found & Hloop & Hsplit & Hnm & Hf).
        exists (b0 :: skipped), rest, found.
        rewrite Hloop. repeat split.
        -- f_equal. unfold len. simpl length. lia.
        -- rewrite Hsplit. reflexivity.
        -- assert (Hhead : exists tl2, skipped ++ firstn 1 rest = b1 :: tl2).
           { destruct skipped as [|x skipped].
             - cbn [app] in Hsplit. rewrite <- Hsplit. cbn. eexists; reflexivity.
             - cbn [app] in Hsplit. inversion Hsplit; subst. eexists; reflexivity. }
           destruct Hhead as [tl2 Htl2].
           change ((b0 :: skipped) ++ firstn 1 rest)
             with (b0 :: (skipped ++ firstn 1 rest)).
           rewrite Htl2 in *. rewrite no_magic_cons, Hm, Hnm. reflexivity.
        -- exact Hf.
Qed.

Lemma find_sync_resynced (r : AudioFrameReceiver) :
  exists skipped rest found,
    _find_sync r = (found, resynced skipped rest r) /\
    buffer r = skipped ++ rest /\
    no_magic (skipped ++ firstn 1 rest) = true /\
    (if found then exists tl, rest = x55 :: xaa :: tl else (length rest < 2)%nat).
Proof.
  destruct (find_sync_loop_spec (buffer r) (sync_errors (stats r)))
    as (skipped & rest & found & Hloop & Hsplit & Hnm & Hf).
  exists skipped, rest, found. repeat split; try assumption.
  unfold _find_sync. rewrite Hloop. reflexivity.
Qed.

(** ** A backlog that stands at a marker *)

Lemma encode_frame_of_parts (s0 s1 l0 l1 c0 c1 : byte) (payload : list byte) :
  le16 l0 l1 = len payload ->
  le16 c0 c1 = _calculate_checksum (header s0 s1 l0 l1 ++ payload) ->
  header s0 s1 l0 l1 ++ payload ++ [c0; c1] = encode_frame (le16 s0 s1) payload /\
  encodable (le16 s0 s1) payload.
Proof.
  intros Hl Hc.
  assert (Hbody : frame_body (le16 s0 s1) payload = header s0 s1 l0 l1 ++ payload).
  { unfold frame_body. rewrite <- Hl, !pack_le16. reflexivity. }
  split.
  - unfold encode_frame. rewrite Hbody.
    unfold _calculate_checksum in Hc. rewrite land_FFFF in Hc.
    rewrite <- Hc, pack_le16, <- app_assoc. reflexivity.
  - split; [apply le16_range|]. rewrite <- Hl. apply le16_range.
Qed.

Lemma parse_marker_cases (r : AudioFrameReceiver) (tl : list byte) :
  buffer r = x55 :: xaa :: tl ->
  (parse_frame r = (NoFrame, r) /\ len (buffer r) < 8 + 65535) \/
  (exists s0 s1 l0 l1 c0 c1 payload rest,
     buffer r = (header s0 s1 l0 l1 ++ payload ++ [c0; c1]) ++ rest /\
     le16 l0 l1 = len payload).
Proof.
  intros Hbuf.
  assert (Hsync : _find_sync r = (true, r)) by (apply (find_sync_hit r tl Hbuf)).
  destruct tl as [|s0 [|s1 [|l0 [|l1 tl']]]];
    try (left; unfold parse_frame; rewrite Hsync, Hbuf; cbn; split; [reflexivity | lia]).
  pose proof (le16_range l0 l1) as Hr.
  destruct (Z.ltb_spec (len (buffer r)) (FRAME_HEADER_SIZE + le16 l0 l1 + CHECKSUM_SIZE))
    as [Hshort | Hlong].
  - left. split.
    + unfold parse_frame. rewrite Hsync. cbn [negb].
      replace (len (buffer r) <? FRAME_HEADER_SIZE) with false
        by (symmetry; apply Z.ltb_ge; rewrite Hbuf; unfold len, FRAME_HEADER_SIZE;
            simpl length; lia).
      replace (slice_to 6 (buffer r)) with (header s0 s1 l0 l1)
        by (rewrite Hbuf; reflexivity).
      cbn [unpack_HHH header].
      replace (len (buffer r) <? FRAME_HEADER_SIZE + le16 l0 l1 + CHECKSUM_SIZE)
        with true by (symmetry; apply Z.ltb_lt; exact Hshort).
      reflexivity.
    + unfold FRAME_HEADER_SIZE, CHECKSUM_SIZE in Hshort. lia.
  - right.
    assert (Hlen : (Z.to_nat (le16 l0 l1) + 2 <= length tl')%nat).
    { rewrite Hbuf in Hlong. unfold len, FRAME_HEADER_SIZE, CHECKSUM_SIZE in Hlong.
      simpl length in Hlong. lia. }
    set (n := Z.to_nat (le16 l0 l1)) in *.
    assert (Hp : length (firstn n tl') = n) by (apply firstn_length_le; lia).
    destruct (skipn n tl') as [|c0 [|c1 rest]] eqn:Hsk;
      try (apply (f_equal (@length byte)) in Hsk; rewrite length_skipn in Hsk;
           simpl in Hsk; lia).
    exists s0, s1, l0, l1, c0, c1, (firstn n tl'), rest. split.
    + rewrite Hbuf. unfold header. cbn [app]. do 6 f_equal.
      rewrite <- app_assoc. cbn [app]. rewrite <- Hsk. symmetry. apply firstn_skipn.
    + unfold len. rewrite Hp. unfold n. lia.
Qed.

Lemma resynced_set_buffer (skipped rest rest' : list byte) (r : AudioFrameReceiver) :
  set_buffer rest' (resynced skipped rest r) = resynced skipped rest' r.
Proof. reflexivity. Qed.

(** Every call of the parsing part ends in one of the three ways. *)
Lemma parse_frame_result (r : AudioFrameReceiver) :
  parse_result r (fst (parse_frame r)) (snd (parse_frame r)).
Proof.
  destruct (find_sync_resynced r) as (skipped & rest & found & Hsync & Hsplit & Hnm & Hf).
  destruct found.
  - destruct Hf as [tl Htl].
    set (r0 := resynced skipped rest r) in *.
    assert (Hb0 : buffer r0 = x55 :: xaa :: tl) by (rewrite <- Htl; reflexivity).
    assert (Hskip : parse_frame r = parse_frame r0).
    { unfold parse_frame. rewrite Hsync, (find_sync_hit r0 tl Hb0). reflexivity. }
    rewrite Hskip.
    destruct (parse_marker_cases r0 tl Hb0) as [[Hwait Hshort] | Hframe].
    + rewrite Hwait. cbn [fst snd].
      apply parse_waits; assumption.
    + destruct Hframe as (s0 & s1 & l0 & l1 & c0 & c1 & payload & rest' & Hb & Hl).
      rewrite (parse_frame_at_sync r0 s0 s1 l0 l1 c0 c1 payload rest' Hb Hl).
      assert (Hrest : rest = (header s0 s1 l0 l1 ++ payload ++ [c0; c1]) ++ rest')
        by (rewrite <- Hb; reflexivity).
      assert (Hsplit' : buffer r =
                        skipped ++ (header s0 s1 l0 l1 ++ payload ++ [c0; c1]) ++ rest')
        by (rewrite Hsplit, Hrest; reflexivity).
      assert (Hnm' : no_magic (skipped ++ [x55]) = true).
      { rewrite Htl in Hnm. exact Hnm. }
      unfold r0. rewrite resynced_set_buffer.
      destruct (le16 c0 c1 =? _calculate_checksum (header s0 s1 l0 l1 ++ payload)) eqn:Hc.
      * apply Z.eqb_eq in Hc.
        destruct (encode_frame_of_parts s0 s1 l0 l1 c0 c1 payload Hl Hc) as [Henc Hable].
        unfold accept_frame. rewrite audio_data_of_frame.
        rewrite Henc in Hsplit'.
        pose proof (parse_accepts r skipped (le16 s0 s1) payload rest' Hsplit' Hnm' Hable)
          as Hacc.
        destruct (frombuffer_int16 payload); exact Hacc.
      * cbn [fst snd].
        apply (parse_drops r skipped (header s0 s1 l0 l1 ++ payload ++ [c0; c1]) rest');
          [exact Hsplit' | exact Hnm' |].
        rewrite !len_app. unfold len, header. simpl length. lia.
  - unfold parse_frame. rewrite Hsync. cbn [negb fst snd].
    apply parse_waits; try assumption. unfold len. lia.
Qed.

Lemma sequence_stats_dropped_le (seq : Z) (s : Stats) :
  frames_dropped s <= frames_dropped (sequence_stats seq s) < frames_dropped s + 65536.
Proof.
  rewrite sequence_stats_dropped. destruct (last_seq s) as [l|]; [|lia].
  destruct (seq =? (l + 1) mod 65536); [lia|].
  pose proof (Z.mod_pos_bound (seq - (l + 1) mod 65536) 65536). lia.
Qed.

(** What the parsing part of a call does to the counters. *)
Lemma parse_result_stats (r r' : AudioFrameReceiver) (o : outcome) :
  parse_result r o r' ->
  sample_rate r' = sample_rate r /\
  ser r' = ser r /\
  bytes_received (stats r') = bytes_received (stats r) /\
  sync_errors (stats r) <= sync_errors (stats r') /\
  checksum_errors (stats r) <= checksum_errors (stats r') <= checksum_errors (stats r) + 1 /\
  frames_dropped (stats r) <= frames_dropped (stats r') < frames_dropped (stats r) + 65536 /\
  frames_received (stats r') =
    frames_received (stats r) + (if delivered o then 1 else 0) /\
  (delivered o = false ->
     last_seq (stats r') = last_seq (stats r) /\
     frames_dropped (stats r') = frames_dropped (stats r)) /\
  (delivered o = true ->
     checksum_errors (stats r') = checksum_errors (stats r) /\
     exists seq, last_seq (stats r') = Some seq /\ 0 <= seq < 65536) /\
  o <> Raises StructError.
Proof.
  intros H. destruct H as [skipped rest Hb Hn Hs | skipped block rest Hb Hn Hl
                          | skipped seq payload rest Hb Hn Henc].
  - pose proof (len_nonneg skipped). cbn.
    repeat split; try lia; try discriminate.
  - pose proof (len_nonneg skipped). cbn.
    repeat split; try lia; try discriminate.
  - pose proof (len_nonneg skipped).
    set (r0 := resynced skipped rest r).
    destruct (sequence_stats_fields seq (stats r0)) as (Hf & Hc & Hs & Hby & Hls).
    pose proof (sequence_stats_dropped_le seq (stats r0)) as Hd.
    assert (Hdel : delivered (match frombuffer_int16 payload with
                              | Some samples => Samples samples
                              | None => Raises ValueError
                              end) = true)
      by (destruct (frombuffer_int16 payload); reflexivity).
    rewrite Hdel. cbn [stats set_stats sample_rate ser].
    rewrite Hf, Hc, Hs, Hby, Hls.
    repeat split; try (cbn; lia); try discriminate.
    + change (frames_dropped (stats r0)) with (frames_dropped (stats r)) in Hd. lia.
    + change (frames_dropped (stats r0)) with (frames_dropped (stats r)) in Hd. lia.
    + exists seq. split; [reflexivity | apply Henc].
    + destruct (frombuffer_int16 payload); discriminate.
Qed.

(** What the read from the port does. *)
Lemma read_serial_spec (r r1 : AudioFrameReceiver) :
  read_serial r = Some r1 ->
  exists chunk,
    chunk = match ser r with Some s => input_buffer s | None => [] end /\
    buffer r1 = buffer r ++ chunk /\
    bytes_received (stats r1) = bytes_received (stats r) + len chunk /\
    ser r1 = option_map reset_input_buffer (ser r) /\
    sample_rate r1 = sample_rate r.
Proof.
  intros H. destruct (ser r) as [s|] eqn:Hser.
  - destruct (input_buffer s) as [|b pending] eqn:Hin.
    + rewrite (read_serial_idle r s Hser Hin) in H. discriminate.
    + rewrite (read_serial_pending r s Hser) in H by (rewrite Hin; discriminate).
      inversion H; subst. rewrite Hin. exists (b :: pending).
      cbn. repeat split.
  - rewrite (read_serial_detached r Hser) in H. inversion H; subst.
    exists []. rewrite app_nil_r, Hser. cbn. repeat split. lia.
Qed.

(** A call either stops at an idle port or parses the backlog the read
    leaves. *)
Lemma receive_frame_cases (r : AudioFrameReceiver) :
  (read_serial r = None /\ receive_frame r = (NoFrame, r)) \/
  (exists r1, read_serial r = Some r1 /\
              parse_result r1 (fst (receive_frame r)) (snd (receive_frame r))).
Proof.
  unfold receive_frame. destruct (read_serial r) as [r1|] eqn:Hread.
  - right. exists r1. split; [reflexivity | apply parse_frame_result].
  - left. split; reflexivity.
Qed.

(** X1.  [_find_sync] on any backlog: it drops a prefix in which no marker
    begins, counts one sync error per dropped byte, and stops either at the
    first marker (result [True]) or with at most one byte left (result
    [False]). *)
Theorem find_sync_first_marker (r : AudioFrameReceiver) :
  exists skipped rest,
    buffer r = skipped ++ rest /\
    no_magic (skipped ++ firstn 1 rest) = true /\
    buffer (snd (_find_sync r)) = rest /\
    sync_errors (stats (snd (_find_sync r))) = sync_errors (stats r) + len skipped /\
    (fst (_find_sync r) = true -> exists tl, rest = x55 :: xaa :: tl) /\
    (fst (_find_sync r) = false -> (length rest <= 1)%nat).
Proof.
  destruct (find_sync_resynced r) as (skipped & rest & found & Hsync & Hsplit & Hnm & Hf).
  exists skipped, rest. rewrite Hsync. cbn [fst snd].
  repeat split; try assumption.
  - intros ->. exact Hf.
  - intros ->. lia.
Qed.

(** X2.  Whatever [receive_frame] returns as samples was sent: the backlog
    the call parsed was some dropped bytes without a marker, then the
    encoding of a frame whose payload is the bytes of the returned samples
    and whose sequence number is the new [last_seq], then the backlog the
    call leaves. *)
Theorem delivered_frame_was_sent (r r' : AudioFrameReceiver) (samples : list Z) :
  receive_frame r = (Samples samples, r') ->
  exists r1 skipped seq,
    read_serial r = Some r1 /\
    buffer r1 = skipped ++ encode_frame seq (tobytes samples) ++ buffer r' /\
    no_magic (skipped ++ [x55]) = true /\
    encodable seq (tobytes samples) /\
    frombuffer_int16 (tobytes samples) = Some samples /\
    last_seq (stats r') = Some seq /\
    sync_errors (stats r') = sync_errors (stats r) + len skipped.
Proof.
  intros Hrecv.
  destruct (receive_frame_cases r) as [[_ Hidle] | (r1 & Hread & Hpr)].
  - rewrite Hidle in Hrecv. discriminate.
  - rewrite Hrecv in Hpr. cbn [fst snd] in Hpr.
    destruct (read_serial_stats r r1 Hread) as (_ & _ & _ & Hse & _).
    inversion Hpr as [ | | skipped seq payload rest Hb Hn Henc Ho Hr'].
    destruct (frombuffer_int16 payload) as [s|] eqn:Hfb; [|discriminate].
    inversion Ho; subst s.
    pose proof (frombuffer_tobytes payload samples Hfb) as Htb.
    exists r1, skipped, seq. rewrite Htb.
    destruct (sequence_stats_fields seq (stats (resynced skipped rest r1)))
      as (_ & _ & Hs & _ & Hls).
    cbn [stats buffer set_stats]. rewrite Hs, Hls, <- Hse.
    repeat split; try assumption; apply Henc.
Qed.

Lemma delivered_frame_was_sent_witness :
  receive_frame (arrive ([x00; x55] ++ encode_frame 5 [x01; x02; xff; xff] ++ [x07])
                        (open (init 48000))) =
    (Samples [513; -1],
     mkReceiver 48000 (Some (mkSerial [])) (mkStats 1 0 0 2 15 (Some 5)) [x07]) /\
  exists r1 skipped seq,
    read_serial (arrive ([x00; x55] ++ encode_frame 5 [x01; x02; xff; xff] ++ [x07])
                        (open (init 48000))) = Some r1 /\
    buffer r1 = skipped ++ encode_frame seq (tobytes [513; -1]) ++ [x07] /\
    no_magic (skipped ++ [x55]) = true /\
    encodable seq (tobytes [513; -1]) /\
    frombuffer_int16 (tobytes [513; -1]) = Some [513; -1] /\
    Some 5 = Some seq /\
    2 = 0 + len skipped.
Proof.
  split; [reflexivity|].
  exact (delivered_frame_was_sent
           (arrive ([x00; x55] ++ encode_frame 5 [x01; x02; xff; xff] ++ [x07])
                   (open (init 48000)))
           (mkReceiver 48000 (Some (mkSerial [])) (mkStats 1 0 0 2 15 (Some 5)) [x07])
           [513; -1] eq_refl).
Defined.

Lemma receive_frame_monotone (r : AudioFrameReceiver) :
  frames_received (stats r) <= frames_received (stats (snd (receive_frame r))) /\
  frames_dropped (stats r) <= frames_dropped (stats (snd (receive_frame r))) /\
  checksum_errors (stats r) <= checksum_errors (stats (snd (receive_frame r))) /\
  sync_errors (stats r) <= sync_errors (stats (snd (receive_frame r))) /\
  bytes_received (stats r) <= bytes_received (stats (snd (receive_frame r))).
Proof.
  destruct (receive_frame_cases r) as [[_ Hidle] | (r1 & Hread & Hpr)].
  - rewrite Hidle. cbn [snd]. lia.
  - destruct (read_serial_stats r r1 Hread) as (Hfr & Hfd & Hce & Hse & _).
    destruct (read_serial_spec r r1 Hread) as (chunk & _ & _ & Hby & _).
    pose proof (len_nonneg chunk).
    destruct (parse_result_stats _ _ _ Hpr)
      as (_ & _ & Hb & Hs & Hc & Hd & Hf & _).
    destruct (delivered (fst (receive_frame r))); lia.
Qed.

(** X3.  No call of [receive_frame] lowers a counter: frames received,
    frames dropped, checksum errors, sync errors and bytes received only
    grow or stay. *)
Theorem counters_never_decrease (r : AudioFrameReceiver) :
  frames_received (stats r) <= frames_received (stats (snd (receive_frame r))) /\
  frames_dropped (stats r) <= frames_dropped (stats (snd (receive_frame r))) /\
  checksum_errors (stats r) <= checksum_errors (stats (snd (receive_frame r))) /\
  sync_errors (stats r) <= sync_errors (stats (snd (receive_frame r))) /\
  bytes_received (stats r) <= bytes_received (stats (snd (receive_frame r))).
Proof.
  exact (receive_frame_monotone r).
Qed.

(** ** Several calls *)

Lemma receive_frame_delivery (r : AudioFrameReceiver) :
  frames_received (stats (snd (receive_frame r))) =
    frames_received (stats r) + (if delivered (fst (receive_frame r)) then 1 else 0) /\
  (delivered (fst (receive_frame r)) = false ->
     last_seq (stats (snd (receive_frame r))) = last_seq (stats r) /\
     frames_dropped (stats (snd (receive_frame r))) = frames_dropped (stats r)).
Proof.
  destruct (receive_frame_cases r) as [[_ Hidle] | (r1 & Hread & Hpr)].
  - rewrite Hidle. cbn. split; [lia | intros _; split; reflexivity].
  - destruct (read_serial_stats r r1 Hread) as (Hfr & Hfd & _ & _ & Hls).
    destruct (parse_result_stats _ _ _ Hpr)
      as (_ & _ & _ & _ & _ & _ & Hf & Hno & _).
    rewrite Hf, Hfr. split; [reflexivity|].
    intros Hd. destruct (Hno Hd) as [H1 H2]. rewrite H1, H2, Hls, Hfd.
    split; reflexivity.
Qed.

(** Calls on a port that does not fail: [frames_received] grows by the
    number of calls that did not return [None]. *)
Lemma receive_frames_count (n : nat) (r : AudioFrameReceiver) :
  frames_received (stats (snd (receive_frames n r))) =
    frames_received (stats r) + count_delivered (fst (receive_frames n r)).
Proof.
  revert r. induction n as [|n IH]; intros r.
  - cbn. lia.
  - cbn [receive_frames].
    destruct (receive_frame r) as [o r1] eqn:Hrecv.
    specialize (IH r1).
    destruct (receive_frames n r1) as [os r2] eqn:Hrun.
    cbn [fst snd count_delivered] in *.
    pose proof (proj1 (receive_frame_delivery r)) as Hone.
    rewrite Hrecv in Hone. cbn [fst snd] in Hone.
    rewrite IH, Hone. lia.
Qed.

Lemma receive_frame_port_delivery (f : bool) (r : AudioFrameReceiver) :
  frames_received (stats (snd (receive_frame_port f r))) =
    frames_received (stats r) +
    (if took_frame (fst (receive_frame_port f r)) then 1 else 0).
Proof.
  pose proof (proj1 (receive_frame_delivery r)) as Hone.
  unfold receive_frame_port.
  destruct (ser r) as [s|]; [destruct f|];
    try (cbn [fst snd took_frame]; lia);
    destruct (receive_frame r) as [o r1]; cbn [fst snd took_frame] in *; exact Hone.
Qed.

(** X4.  [frames_received] counts exactly the calls that took a frame.  Over
    any number of successive calls, at any of which the port may fail (its
    exception leaves the call before the receiver is touched),
    [frames_received] grows by the number of calls that returned samples or
    raised on the payload of an accepted frame; a call that returns [None]
    or fails at the port adds nothing. *)
Theorem frames_received_counts_frames (fails : list bool) (r : AudioFrameReceiver) :
  frames_received (stats (snd (receive_frames_port fails r))) =
    frames_received (stats r) + count_took_frame (fst (receive_frames_port fails r)).
Proof.
  revert r. induction fails as [|f later IH]; intros r.
  - cbn. lia.
  - cbn [receive_frames_port].
    pose proof (receive_frame_port_delivery f r) as Hone.
    destruct (receive_frame_port f r) as [res r1].
    specialize (IH r1).
    destruct (receive_frames_port later r1) as [ress r2].
    cbn [fst snd count_took_frame] in *.
    rewrite IH, Hone. lia.
Qed.

(** On a port that does not fail, the only exception is the [ValueError]
    of an accepted frame with an odd payload length. *)
Lemma raise_is_odd_frame (r r' : AudioFrameReceiver) (e : exn) :
  receive_frame r = (Raises e, r') ->
  e = ValueError /\
  exists r1 skipped seq payload,
    read_serial r = Some r1 /\
    buffer r1 = skipped ++ encode_frame seq payload ++ buffer r' /\
    encodable seq payload /\
    Nat.Odd (length payload) /\
    last_seq (stats r') = Some seq /\
    frames_received (stats r') = frames_received (stats r) + 1.
Proof.
  intros Hrecv.
  destruct (receive_frame_cases r) as [[_ Hidle] | (r1 & Hread & Hpr)].
  - rewrite Hidle in Hrecv. discriminate.
  - rewrite Hrecv in Hpr. cbn [fst snd] in Hpr.
    destruct (read_serial_stats r r1 Hread) as (Hfr & _).
    inversion Hpr as [ | | skipped seq payload rest Hb Hn Henc Ho Hr'].
    destruct (frombuffer_int16 payload) as [s|] eqn:Hfb; [discriminate|].
    inversion Ho; subst e. split; [reflexivity|].
    exists r1, skipped, seq, payload.
    destruct (sequence_stats_fields seq (stats (resynced skipped rest r1)))
      as (Hf & _ & _ & _ & Hls).
    cbn [stats buffer set_stats]. rewrite Hf, Hls, <- Hfr.
    repeat split; try assumption; try apply Henc.
    destruct (Nat.Even_or_Odd (length payload)) as [Hev | Hodd]; [|exact Hodd].
    rewrite (frombuffer_samples_of payload Hev) in Hfb. discriminate.
Qed.

Lemma returned_exception_is_odd_frame (r r2 : AudioFrameReceiver) (o : outcome) :
  receive_frame r = (o, r2) ->
  exceptional (Returns o) = true ->
  Returns o = Returns (Raises ValueError) /\
  exists r1 skipped seq payload,
    read_serial r = Some r1 /\
    buffer r1 = skipped ++ encode_frame seq payload ++ buffer r2 /\
    encodable seq payload /\
    Nat.Odd (length payload) /\
    last_seq (stats r2) = Some seq /\
    frames_received (stats r2) = frames_received (stats r) + 1.
Proof.
  intros Hrecv Hexc. cbn [exceptional] in Hexc.
  destruct o as [samples | | e]; try discriminate.
  destruct (raise_is_odd_frame r r2 e Hrecv) as [-> Hodd].
  split; [reflexivity | exact Hodd].
Qed.

(** X5.  The exceptions that leave [receive_frame] are of two kinds: those
    of a failing port ([ser.in_waiting], [ser.read]), which leave the
    receiver as it was, and the [ValueError] of an accepted frame with an
    odd payload length: that frame had a valid checksum, was taken out of the
    backlog and was counted as received.  [struct.unpack] never fails. *)
Theorem exceptions_of_receive_frame (fails : bool) (r r' : AudioFrameReceiver)
    (res : call_result) :
  receive_frame_port fails r = (res, r') ->
  exceptional res = true ->
  (res = PortRaises /\ fails = true /\ ser r <> None /\ r' = r) \/
  (res = Returns (Raises ValueError) /\
   exists r1 skipped seq payload,
     read_serial r = Some r1 /\
     buffer r1 = skipped ++ encode_frame seq payload ++ buffer r' /\
     encodable seq payload /\
     Nat.Odd (length payload) /\
     last_seq (stats r') = Some seq /\
     frames_received (stats r') = frames_received (stats r) + 1).
Proof.
  unfold receive_frame_port. intros Hcall Hexc.
  destruct (ser r) as [s|] eqn:Hser.
  - destruct fails.
    + inversion Hcall; subst. left. repeat split. discriminate.
    + destruct (receive_frame r) as [o r2] eqn:Hrecv. inversion Hcall; subst.
      right. exact (returned_exception_is_odd_frame r r' o Hrecv Hexc).
  - destruct (receive_frame r) as [o r2] eqn:Hrecv. inversion Hcall; subst.
    right. exact (returned_exception_is_odd_frame r r' o Hrecv Hexc).
Qed.

Lemma exceptions_of_receive_frame_witness :
  receive_frame_port false (arrive (encode_frame 7 [x01]) (open (init 48000))) =
    (Returns (Raises ValueError),
     mkReceiver 48000 (Some (mkSerial [])) (mkStats 1 0 0 0 9 (Some 7)) []) /\
  exceptional (Returns (Raises ValueError)) = true /\
  receive_frame_port true (arrive (encode_frame 7 [x01]) (open (init 48000))) =
    (PortRaises, arrive (encode_frame 7 [x01]) (open (init 48000))) /\
  exists r1 skipped seq payload,
    read_serial (arrive (encode_frame 7 [x01]) (open (init 48000))) = Some r1 /\
    buffer r1 = skipped ++ encode_frame seq payload ++ [] /\
    encodable seq payload /\
    Nat.Odd (length payload) /\
    Some 7 = Some seq /\
    1 = 0 + 1.
Proof.
  split; [reflexivity | split; [reflexivity | split; [reflexivity|]]].
  destruct (exceptions_of_receive_frame false
              (arrive (encode_frame 7 [x01]) (open (init 48000)))
              (mkReceiver 48000 (Some (mkSerial [])) (mkStats 1 0 0 0 9 (Some 7)) [])
              (Returns (Raises ValueError)) eq_refl eq_refl)
    as [(Hport & _) | (_ & Hodd)].
  - discriminate Hport.
  - exact Hodd.
Defined.

(** X6.  A call that returns [None] leaves [last_seq], [frames_received]
    and the gap counter as they were and counts at most one checksum error.
    If it counts none, it either stopped at an idle port or is waiting: the
    bytes it removed from the backlog are exactly those it counted as sync
    errors, and the backlog it leaves is shorter than 65543 bytes (the
    longest frame). *)
Theorem none_call_effects (r r' : AudioFrameReceiver) :
  receive_frame r = (NoFrame, r') ->
  last_seq (stats r') = last_seq (stats r) /\
  frames_received (stats r') = frames_received (stats r) /\
  frames_dropped (stats r') = frames_dropped (stats r) /\
  (checksum_errors (stats r') = checksum_errors (stats r) \/
   checksum_errors (stats r') = checksum_errors (stats r) + 1) /\
  (checksum_errors (stats r') = checksum_errors (stats r) ->
   (read_serial r = None /\ r' = r) \/
   (exists r1 skipped,
      read_serial r = Some r1 /\
      buffer r1 = skipped ++ buffer r' /\
      sync_errors (stats r') = sync_errors (stats r) + len skipped /\
      len (buffer r') < 65543)).
Proof.
  intros Hrecv.
  pose proof (receive_frame_delivery r) as [Hcount Hkeep].
  rewrite Hrecv in Hcount, Hkeep. cbn [fst snd delivered] in Hcount, Hkeep.
  destruct (Hkeep eq_refl) as [Hls Hfd].
  split; [exact Hls | split; [lia | split; [exact Hfd|]]].
  destruct (receive_frame_cases r) as [[Hidle Hsame] | (r1 & Hread & Hpr)].
  - rewrite Hsame in Hrecv. inversion Hrecv; subst r'.
    split; [left; reflexivity | intros _; left; split; [exact Hidle | reflexivity]].
  - rewrite Hrecv in Hpr. cbn [fst snd] in Hpr.
    destruct (read_serial_stats r r1 Hread) as (_ & _ & Hce & Hse & _).
    inversion Hpr as [skipped rest Hb Hn Hs Hr' | skipped block rest Hb Hn Hl Hr'
                     | skipped seq payload rest Hb Hn Henc Ho Hr'].
    + cbn [stats buffer resynced set_stats set_buffer set_sync_errors checksum_errors
           sync_errors].
      split; [left; exact Hce|]. intros _. right.
      exists r1, skipped. rewrite Hse. repeat split; assumption.
    + cbn [stats buffer resynced set_stats set_buffer set_sync_errors
           add_checksum_errors checksum_errors].
      split; [right; rewrite Hce; reflexivity|]. intros Habs. rewrite Hce in Habs. lia.
    + destruct (frombuffer_int16 payload); discriminate.
Qed.

Lemma none_call_effects_witness :
  receive_frame (arrive [x00; x55; xaa; x05] (open (init 48000))) =
    (NoFrame,
     mkReceiver 48000 (Some (mkSerial [])) (mkStats 0 0 0 1 4 None) [x55; xaa; x05]) /\
  exists r1 skipped,
    read_serial (arrive [x00; x55; xaa; x05] (open (init 48000))) = Some r1 /\
    buffer r1 = skipped ++ [x55; xaa; x05] /\
    1 = 0 + len skipped /\
    len [x55; xaa; x05] < 65543.
Proof.
  split; [reflexivity|].
  destruct (none_call_effects
              (arrive [x00; x55; xaa; x05] (open (init 48000)))
              (mkReceiver 48000 (Some (mkSerial [])) (mkStats 0 0 0 1 4 None)
                          [x55; xaa; x05])
              eq_refl) as (_ & _ & _ & _ & Hwait).
  destruct (Hwait eq_refl) as [[Hidle _] | Hw].
  - discriminate Hidle.
  - exact Hw.
Defined.

(** X7.  Bytes leave the backlog only from its front.  What a call removes
    is a run of bytes counted one by one as sync errors, followed by nothing
    or by one frame-sized block of at least 8 bytes; what was behind stays,
    in order. *)
Theorem backlog_consumed_from_front (r r1 : AudioFrameReceiver) :
  read_serial r = Some r1 ->
  exists skipped block,
    buffer r1 = skipped ++ block ++ buffer (snd (receive_frame r)) /\
    sync_errors (stats (snd (receive_frame r))) = sync_errors (stats r) + len skipped /\
    (block = [] \/ 8 <= len block).
Proof.
  intros Hread.
  destruct (read_serial_stats r r1 Hread) as (_ & _ & _ & Hse & _).
  assert (Hpr : parse_result r1 (fst (receive_frame r)) (snd (receive_frame r))).
  { unfold receive_frame. rewrite Hread. apply parse_frame_result. }
  destruct Hpr as [skipped rest Hb Hn Hs | skipped block rest Hb Hn Hl
                  | skipped seq payload rest Hb Hn Henc].
  - exists skipped, []. cbn. rewrite Hse. repeat split; [exact Hb | left; reflexivity].
  - exists skipped, block. cbn. rewrite Hse. repeat split; [exact Hb | right; exact Hl].
  - exists skipped, (encode_frame seq payload).
    destruct (sequence_stats_fields seq (stats (resynced skipped rest r1)))
      as (_ & _ & Hs & _).
    cbn [stats buffer set_stats]. rewrite Hs. cbn. rewrite Hse.
    repeat split; [exact Hb|]. right.
    unfold encode_frame, frame_body, pack_H, len. rewrite !length_app. simpl length. lia.
Qed.

Lemma backlog_consumed_from_front_witness :
  read_serial (arrive ([x00; x55] ++ encode_frame 5 [x01; x02; xff; xff] ++ [x07])
                      (open (init 48000))) =
    Some (mkReceiver 48000 (Some (mkSerial [])) (mkStats 0 0 0 0 15 None)
                     ([x00; x55] ++ encode_frame 5 [x01; x02; xff; xff] ++ [x07])) /\
  exists skipped block,
    [x00; x55] ++ encode_frame 5 [x01; x02; xff; xff] ++ [x07] =
      skipped ++ block ++ [x07] /\
    2 = 0 + len skipped /\
    (block = [] \/ 8 <= len block).
Proof.
  split; [reflexivity|].
  exact (backlog_consumed_from_front
           (arrive ([x00; x55] ++ encode_frame 5 [x01; x02; xff; xff] ++ [x07])
                   (open (init 48000)))
           (mkReceiver 48000 (Some (mkSerial [])) (mkStats 0 0 0 0 15 None)
                       ([x00; x55] ++ encode_frame 5 [x01; x02; xff; xff] ++ [x07]))
           eq_refl).
Defined.

(** ** What holds throughout a session *)

Lemma receive_frame_session (r : AudioFrameReceiver) :
  sample_rate (snd (receive_frame r)) = sample_rate r /\
  (delivered (fst (receive_frame r)) = true ->
     exists seq, last_seq (stats (snd (receive_frame r))) = Some seq /\ 0 <= seq < 65536).
Proof.
  destruct (receive_frame_cases r) as [[_ Hidle] | (r1 & Hread & Hpr)].
  - rewrite Hidle. cbn. split; [reflexivity | discriminate].
  - destruct (read_serial_spec r r1 Hread) as (chunk & _ & _ & _ & _ & Hsr).
    destruct (parse_result_stats _ _ _ Hpr)
      as (Hsr' & _ & _ & _ & _ & _ & _ & _ & Hyes & _).
    split; [congruence|]. intros Hd. apply (Hyes Hd).
Qed.

Lemma reachable_invariant (rate : Z) (r : AudioFrameReceiver) :
  reachable rate r ->
  sample_rate r = rate /\
  0 <= frames_received (stats r) /\
  0 <= frames_dropped (stats r) /\
  0 <= checksum_errors (stats r) /\
  0 <= sync_errors (stats r) /\
  0 <= bytes_received (stats r) /\
  match last_seq (stats r) with
  | Some l => 0 <= l < 65536 /\ 0 < frames_received (stats r)
  | None => frames_received (stats r) = 0
  end.
Proof.
  induction 1 as [ | r Hr IH | r data Hr IH | r Hr IH | r Hr IH].
  - cbn. repeat split; lia.
  - exact IH.
  - unfold arrive. destruct (ser r); exact IH.
  - destruct IH as (Hsr & Hfr & Hfd & Hce & Hse & Hby & Hls).
    pose proof (receive_frame_monotone r) as (M1 & M2 & M3 & M4 & M5).
    pose proof (receive_frame_delivery r) as [Hcount Hkeep].
    pose proof (receive_frame_session r) as [Hrate Hset].
    repeat split; try lia; try congruence.
    destruct (delivered (fst (receive_frame r))) eqn:Hd.
    + destruct (Hset eq_refl) as (seq & Hseq & Hrange).
      rewrite Hseq. split; [exact Hrange | lia].
    + destruct (Hkeep eq_refl) as [Hl _]. rewrite Hl.
      destruct (last_seq (stats r)); lia.
  - exact IH.
Qed.

(** X8.  Throughout a session (construction, opening the port, bytes
    reaching the port, [receive_frame] calls, flushes) the sample rate
    stays what the receiver was built with, every counter stays at or above
    zero, [last_seq] is a 16-bit number whenever it is set, and it is set
    exactly when at least one frame was received. *)
Theorem session_invariant (rate : Z) (r : AudioFrameReceiver) :
  reachable rate r ->
  sample_rate r = rate /\
  0 <= frames_received (stats r) /\
  0 <= frames_dropped (stats r) /\
  0 <= checksum_errors (stats r) /\
  0 <= sync_errors (stats r) /\
  0 <= bytes_received (stats r) /\
  match last_seq (stats r) with
  | Some l => 0 <= l < 65536 /\ 0 < frames_received (stats r)
  | None => frames_received (stats r) = 0
  end.
Proof.
  exact (reachable_invariant rate r).
Qed.

Lemma session_invariant_witness :
  reachable 48000
    (snd (receive_frame (arrive (encode_frame 5 [x01; x02]) (open (init 48000))))) /\
  last_seq
    (stats (snd (receive_frame (arrive (encode_frame 5 [x01; x02]) (open (init 48000))))))
    = Some 5 /\
  0 < frames_received
        (stats (snd (receive_frame (arrive (encode_frame 5 [x01; x02])
                                           (open (init 48000)))))).
Proof.
  assert (Hr : reachable 48000
                 (snd (receive_frame (arrive (encode_frame 5 [x01; x02])
                                             (open (init 48000))))))
    by (apply reach_receive, reach_arrive, reach_open, reach_init).
  split; [exact Hr|].
  pose proof (session_invariant 48000 _ Hr) as (_ & _ & _ & _ & _ & _ & H).
  split; [reflexivity | exact (proj2 H)].
Defined.

Lemma percent_bounds (fr fd : Z) :
  0 < fr -> 0 <= fd ->
  (0 < 100 * inject_Z fr / inject_Z (fr + fd) <= 100)%Q.
Proof.
  intros Hfr Hfd.
  assert (Hpos : (0 < inject_Z (fr + fd))%Q).
  { change 0%Q with (inject_Z 0). rewrite <- Zlt_Qlt. lia. }
  split.
  - apply Qlt_shift_div_l; [exact Hpos|]. rewrite Qmult_0_l.
    change (100 * inject_Z fr)%Q with (inject_Z 100 * inject_Z fr)%Q.
    rewrite <- inject_Z_mult. change 0%Q with (inject_Z 0). rewrite <- Zlt_Qlt. lia.
  - apply Qle_shift_div_r; [exact Hpos|].
    change (100 * inject_Z fr)%Q with (inject_Z 100 * inject_Z fr)%Q.
    change (100 * inject_Z (fr + fd))%Q with (inject_Z 100 * inject_Z (fr + fd))%Q.
    rewrite <- !inject_Z_mult, <- Zle_Qle. lia.
Qed.

(** X9.  [print_stats] never divides by zero in a session, and the success
    rate it prints lies above 0 and at most at 100; it prints none exactly
    when no frame was received. *)
Theorem success_rate_in_range (rate : Z) (r : AudioFrameReceiver) :
  reachable rate r ->
  match print_stats_success_rate (stats r) with
  | NoRate => frames_received (stats r) = 0
  | Rate percent => (0 < percent <= 100)%Q /\ 0 < frames_received (stats r)
  | RateRaises => False
  end.
Proof.
  intros Hr.
  destruct (reachable_invariant rate r Hr) as (_ & Hfr & Hfd & _).
  unfold print_stats_success_rate.
  destruct (Z.gtb_spec (frames_received (stats r)) 0) as [Hpos | Hzero].
  - destruct (Z.eqb_spec (frames_received (stats r) + frames_dropped (stats r)) 0)
      as [Habs | _]; [lia|].
    split; [apply percent_bounds; lia | lia].
  - lia.
Qed.

Lemma success_rate_in_range_witness :
  reachable 48000 (snd (receive_frame (arrive (encode_frame 9 [x03; x04]) after_seq_5))) /\
  print_stats_success_rate
    (stats (snd (receive_frame (arrive (encode_frame 9 [x03; x04]) after_seq_5)))) =
    Rate (100 * inject_Z 2 / inject_Z (2 + 3)) /\
  (0 < 100 * inject_Z 2 / inject_Z (2 + 3) <= 100)%Q.
Proof.
  assert (Hr : reachable 48000
                 (snd (receive_frame (arrive (encode_frame 9 [x03; x04]) after_seq_5)))).
  { apply reach_receive, reach_arrive. unfold after_seq_5.
    apply reach_receive, reach_arrive, reach_open, reach_init. }
  split; [exact Hr | split; [reflexivity|]].
  exact (proj1 (success_rate_in_range 48000 _ Hr)).
Defined.

(** ** What the checksum sees *)

Lemma frame_body_sum (seq : Z) (payload payload' : list byte) :
  length payload' = length payload ->
  sum payload' = sum payload ->
  sum (frame_body seq payload') = sum (frame_body seq payload).
Proof.
  intros Hlen Hsum. unfold frame_body, len. rewrite Hlen, !sum_app, Hsum. reflexivity.
Qed.

(** X10.  The checksum sees only the byte sum.  A frame whose payload was
    replaced in transit by another of the same length and the same byte sum
    (its bytes reordered, for one) passes the check: the call returns the
    altered samples and counts no checksum error. *)
Theorem same_sum_payload_accepted (r r1 : AudioFrameReceiver) (seq : Z)
    (payload payload' rest : list byte) :
  encodable seq payload ->
  Nat.Even (length payload) ->
  length payload' = length payload ->
  sum payload' = sum payload ->
  read_serial r = Some r1 ->
  buffer r1 =
    (frame_body seq payload' ++ pack_H (sum (frame_body seq payload) mod 65536)) ++ rest ->
  exists r',
    receive_frame r = (Samples (samples_of payload'), r') /\
    buffer r' = rest /\
    checksum_errors (stats r') = checksum_errors (stats r) /\
    frames_received (stats r') = frames_received (stats r) + 1.
Proof.
  intros Henc Heven Hlen Hsum Hread Hbuf.
  assert (Henc' : encodable seq payload').
  { destruct Henc as [Hs Hl]. split; [exact Hs|]. unfold len in *. rewrite Hlen. exact Hl. }
  assert (Heven' : Nat.Even (length payload')) by (rewrite Hlen; exact Heven).
  rewrite <- (frame_body_sum seq payload payload' Hlen Hsum) in Hbuf.
  change (frame_body seq payload' ++ pack_H (sum (frame_body seq payload') mod 65536))
    with (encode_frame seq payload') in Hbuf.
  exists (set_stats (sequence_stats seq (stats r1)) (set_buffer rest r1)).
  rewrite (receive_valid_frame r r1 seq payload' rest Henc' Hread Hbuf).
  rewrite (frombuffer_samples_of payload' Heven').
  destruct (read_serial_stats r r1 Hread) as (Hfr & _ & Hce & _).
  destruct (sequence_stats_fields seq (stats r1)) as (Hf & Hc & _).
  cbn [stats buffer set_stats set_buffer]. rewrite Hf, Hc, Hfr, Hce.
  repeat split.
Qed.

Lemma same_sum_payload_accepted_witness :
  encodable 5 [x01; x02; xff; xff] /\
  Nat.Even (length [x01; x02; xff; xff]) /\
  length [xff; x01; xff; x02] = length [x01; x02; xff; xff] /\
  sum [xff; x01; xff; x02] = sum [x01; x02; xff; xff] /\
  exists r',
    receive_frame
      (arrive ((frame_body 5 [xff; x01; xff; x02] ++
                pack_H (sum (frame_body 5 [x01; x02; xff; xff]) mod 65536)) ++ [])
              (open (init 48000))) =
      (Samples [511; 767], r') /\
    buffer r' = [] /\
    checksum_errors (stats r') = 0 /\
    frames_received (stats r') = 0 + 1.
Proof.
  assert (He : encodable 5 [x01; x02; xff; xff]) by concrete_frame.
  assert (Hv : Nat.Even (length [x01; x02; xff; xff])) by concrete_frame.
  split; [exact He | split; [exact Hv | split; [reflexivity | split; [reflexivity|]]]].
  exact (same_sum_payload_accepted
           (arrive ((frame_body 5 [xff; x01; xff; x02] ++
                     pack_H (sum (frame_body 5 [x01; x02; xff; xff]) mod 65536)) ++ [])
                   (open (init 48000)))
           (mkReceiver 48000 (Some (mkSerial [])) (mkStats 0 0 0 0 12 None)
              ((frame_body 5 [xff; x01; xff; x02] ++
                pack_H (sum (frame_body 5 [x01; x02; xff; xff]) mod 65536)) ++ []))
           5 [x01; x02; xff; xff] [xff; x01; xff; x02] []
           He Hv eq_refl eq_refl eq_refl eq_refl).
Defined.

Lemma flip_at_app_r (a b : list byte) (j k : nat) :
  flip_at (length a + j) k (a ++ b) = a ++ flip_at j k b.
Proof.
  induction a as [|x a IH]; [reflexivity|].
  cbn [length Nat.add app]. rewrite flip_at_S, IH. reflexivity.
Qed.

Lemma le16_inj_lo (lo lo' hi : byte) :
  byte_val lo' <> byte_val lo -> le16 lo' hi <> le16 lo hi.
Proof. unfold le16. lia. Qed.

Lemma le16_inj_hi (lo hi hi' : byte) :
  byte_val hi' <> byte_val hi -> le16 lo hi' <> le16 lo hi.
Proof. unfold le16. lia. Qed.

(** A frame with one bit inverted in its checksum field, at the head of
    the backlog a call parses. *)
Lemma checksum_flip_parsed (r r1 : AudioFrameReceiver) (seq : Z)
    (payload rest : list byte) (j k : nat) :
  encodable seq payload ->
  (j < 2)%nat ->
  (k < 8)%nat ->
  read_serial r = Some r1 ->
  buffer r1 = flip_at (6 + length payload + j) k (encode_frame seq payload) ++ rest ->
  exists r',
    receive_frame r = (NoFrame, r') /\
    buffer r' = rest /\
    checksum_errors (stats r') = checksum_errors (stats r) + 1 /\
    last_seq (stats r') = last_seq (stats r) /\
    frames_received (stats r') = frames_received (stats r).
Proof.
  intros Henc Hj Hk Hread Hbuf.
  destruct (encode_frame_shape seq payload Henc)
    as (s0 & s1 & l0 & l1 & c0 & c1 & Hshape & Hs & Hl & Hc).
  assert (Hflip : exists c0' c1',
            flip_at (6 + length payload + j) k (encode_frame seq payload) =
              header s0 s1 l0 l1 ++ payload ++ [c0'; c1'] /\
            le16 c0' c1' <> le16 c0 c1).
  { rewrite Hshape, app_assoc.
    replace (6 + length payload)%nat with (length (header s0 s1 l0 l1 ++ payload))
      by (rewrite length_app; reflexivity).
    rewrite flip_at_app_r, <- app_assoc.
    destruct j as [|[|j]]; [| |lia].
    - exists (flip_bit k c0), c1. split; [reflexivity|].
      apply le16_inj_lo, flip_bit_val, Hk.
    - exists c0, (flip_bit k c1). split; [reflexivity|].
      apply le16_inj_hi, flip_bit_val, Hk. }
  destruct Hflip as (c0' & c1' & Hflip & Hne).
  rewrite Hflip in Hbuf. rewrite Hc in Hne.
  exists (set_stats (add_checksum_errors 1 (stats r1)) (set_buffer rest r1)).
  unfold receive_frame. rewrite Hread.
  rewrite (parse_corrupt_frame r1 s0 s1 l0 l1 c0' c1' payload rest Hbuf Hl Hne).
  destruct (read_serial_stats r r1 Hread) as (Hfr & _ & Hce & _ & Hls).
  cbn. rewrite Hfr, Hce, Hls. repeat split.
Qed.

(** X11.  One inverted bit in the checksum field of a well-formed frame at
    the head of the backlog (the buffered bytes followed by the bytes
    waiting at the port): the call returns nothing and leaves [last_seq] and
    [frames_received] as they were.  Unless the port is attached and idle,
    it takes the frame out and counts exactly one checksum error; with the
    port attached and idle it returns at once and changes nothing. *)
Theorem checksum_field_flip_detected (r : AudioFrameReceiver) (seq : Z)
    (payload rest : list byte) (j k : nat) :
  encodable seq payload ->
  (j < 2)%nat ->
  (k < 8)%nat ->
  buffer r ++ incoming r =
    flip_at (6 + length payload + j) k (encode_frame seq payload) ++ rest ->
  fst (receive_frame r) = NoFrame /\
  last_seq (stats (snd (receive_frame r))) = last_seq (stats r) /\
  frames_received (stats (snd (receive_frame r))) = frames_received (stats r) /\
  (port_idle r = true -> snd (receive_frame r) = r) /\
  (port_idle r = false ->
     buffer (snd (receive_frame r)) = rest /\
     checksum_errors (stats (snd (receive_frame r))) = checksum_errors (stats r) + 1).
Proof.
  intros Henc Hj Hk Hbuf.
  destruct (port_idle r) eqn:Hidle.
  - rewrite (receive_when_idle r Hidle). cbn [fst snd].
    repeat split; discriminate.
  - destruct (read_when_not_idle r Hidle) as (r1 & Hread & Hb1).
    rewrite Hbuf in Hb1.
    destruct (checksum_flip_parsed r r1 seq payload rest j k Henc Hj Hk Hread Hb1)
      as (r' & Hrecv & Hb & Hce & Hls & Hfr).
    rewrite Hrecv. cbn [fst snd].
    repeat split; try assumption; discriminate.
Qed.

Lemma checksum_field_flip_detected_witness :
  encodable 5 [x01; x02; xff; xff] /\
  (1 < 2)%nat /\ (7 < 8)%nat /\
  port_idle
    (arrive (flip_at (6 + length [x01; x02; xff; xff] + 1) 7
                     (encode_frame 5 [x01; x02; xff; xff]) ++ [])
            (open (init 48000))) = false /\
  fst (receive_frame
         (arrive (flip_at (6 + length [x01; x02; xff; xff] + 1) 7
                          (encode_frame 5 [x01; x02; xff; xff]) ++ [])
                 (open (init 48000)))) = NoFrame /\
  checksum_errors
    (stats (snd (receive_frame
                   (arrive (flip_at (6 + length [x01; x02; xff; xff] + 1) 7
                                    (encode_frame 5 [x01; x02; xff; xff]) ++ [])
                           (open (init 48000)))))) = 0 + 1.
Proof.
  assert (He : encodable 5 [x01; x02; xff; xff]) by concrete_frame.
  assert (Hj : (1 < 2)%nat) by lia.
  assert (Hk : (7 < 8)%nat) by lia.
  split; [exact He | split; [exact Hj | split; [exact Hk | split; [reflexivity|]]]].
  destruct (checksum_field_flip_detected
              (arrive (flip_at (6 + length [x01; x02; xff; xff] + 1) 7
                               (encode_frame 5 [x01; x02; xff; xff]) ++ [])
                      (open (init 48000)))
              5 [x01; x02; xff; xff] [] 1 7 He Hj Hk eq_refl)
    as (Hnone & _ & _ & _ & Hbusy).
  split; [exact Hnone | exact (proj2 (Hbusy eq_refl))].
Defined.

(** ** Sequence numbers over a run of frames *)

Lemma rising_gap (seq last : Z) (s : Stats) :
  last_seq s = Some last ->
  0 <= last -> last < seq -> seq < 65536 ->
  frames_dropped (sequence_stats seq s) = frames_dropped s + (seq - last - 1).
Proof.
  intros Hl H0 Hlt Hs. rewrite sequence_stats_dropped, Hl.
  rewrite (Z.mod_small (last + 1)) by lia.
  destruct (Z.eqb_spec seq (last + 1)) as [-> | Hne]; [lia|].
  rewrite Z.mod_small by lia. lia.
Qed.

Lemma receive_frames_rising (fs : list (Z * list byte)) :
  forall r last,
    ser r = None ->
    Forall wire_frame fs ->
    buffer r = encode_frames fs ->
    last_seq (stats r) = Some last ->
    0 <= last ->
    rising last fs ->
    let r' := snd (receive_frames (length fs) r) in
    frames_received (stats r') = frames_received (stats r) + Z.of_nat (length fs) /\
    frames_dropped (stats r') =
      frames_dropped (stats r) + (last_seq_of last fs - last) - Z.of_nat (length fs) /\
    last_seq (stats r') = Some (last_seq_of last fs).
Proof.
  induction fs as [|[seq payload] fs IH]; intros r last Hser Hall Hbuf Hlast H0 Hrise.
  - cbn. repeat split; try lia. exact Hlast.
  - inversion Hall as [|f fs' [Henc Heven] Hrest]; subst.
    cbn [fst snd] in Henc, Heven. cbn [encode_frames] in Hbuf.
    destruct Hrise as [Hlt Hrise].
    set (r1 := set_stats (sequence_stats seq (stats r)) (set_buffer (encode_frames fs) r)).
    assert (H1 : receive_frame r = (Samples (samples_of payload), r1)).
    { rewrite (receive_valid_frame r r seq payload (encode_frames fs) Henc
                 (read_serial_detached r Hser) Hbuf).
      rewrite (frombuffer_samples_of payload Heven). reflexivity. }
    destruct (sequence_stats_fields seq (stats r)) as (Hf & _ & _ & _ & Hls).
    pose proof (rising_gap seq last (stats r) Hlast H0 Hlt (proj2 (proj1 Henc))) as Hgap.
    destruct (IH r1 seq Hser Hrest eq_refl Hls ltac:(lia) Hrise) as (I1 & I2 & I3).
    cbn [length receive_frames]. rewrite H1.
    destruct (receive_frames (length fs) r1) as [os r2] eqn:Hrun.
    cbn [snd] in *. cbn [last_seq_of].
    change (stats r1) with (sequence_stats seq (stats r)) in I1, I2.
    rewrite I1, I2, I3, Hf, Hgap.
    repeat split; lia.
Qed.

(** X12.  Sequence accounting over a run.  With no port attached, a backlog
    of complete wire frames whose sequence numbers rise above [last_seq]
    without wrapping is drained so that every number after the old
    [last_seq] up to the last frame's is counted once, as received or as
    dropped: [frames_received] grows by the number of frames and
    [frames_dropped] by the numbers skipped. *)
Theorem rising_run_accounting (r : AudioFrameReceiver) (fs : list (Z * list byte))
    (last : Z) :
  ser r = None ->
  Forall wire_frame fs ->
  buffer r = encode_frames fs ->
  last_seq (stats r) = Some last ->
  0 <= last ->
  rising last fs ->
  frames_received (stats (snd (receive_frames (length fs) r))) =
    frames_received (stats r) + Z.of_nat (length fs) /\
  frames_dropped (stats (snd (receive_frames (length fs) r))) =
    frames_dropped (stats r) + (last_seq_of last fs - last) - Z.of_nat (length fs) /\
  last_seq (stats (snd (receive_frames (length fs) r))) = Some (last_seq_of last fs).
Proof.
  intros Hser Hall Hbuf Hlast H0 Hrise.
  exact (receive_frames_rising fs r last Hser Hall Hbuf Hlast H0 Hrise).
Qed.

Lemma rising_run_accounting_witness :
  Forall wire_frame [(7, [x01; x02]); (8, []); (12, [x03; x04])] /\
  rising 4 [(7, [x01; x02]); (8, []); (12, [x03; x04])] /\
  frames_received
    (stats (snd (receive_frames 3
       (mkReceiver 48000 None (mkStats 1 0 0 0 10 (Some 4))
          (encode_frames [(7, [x01; x02]); (8, []); (12, [x03; x04])]))))) = 1 + 3 /\
  frames_dropped
    (stats (snd (receive_frames 3
       (mkReceiver 48000 None (mkStats 1 0 0 0 10 (Some 4))
          (encode_frames [(7, [x01; x02]); (8, []); (12, [x03; x04])]))))) =
    0 + (12 - 4) - 3.
Proof.
  assert (Hall : Forall wire_frame [(7, [x01; x02]); (8, []); (12, [x03; x04])]).
  { repeat constructor; cbn; try lia.
    - exists 1%nat; reflexivity.
    - exists 0%nat; reflexivity.
    - exists 1%nat; reflexivity. }
  assert (Hrise : rising 4 [(7, [x01; x02]); (8, []); (12, [x03; x04])])
    by (cbn; lia).
  split; [exact Hall | split; [exact Hrise|]].
  pose proof (rising_run_accounting
                (mkReceiver 48000 None (mkStats 1 0 0 0 10 (Some 4))
                   (encode_frames [(7, [x01; x02]); (8, []); (12, [x03; x04])]))
                [(7, [x01; x02]); (8, []); (12, [x03; x04])] 4
                eq_refl Hall eq_refl eq_refl ltac:(lia) Hrise) as (H1 & H2 & _).
  split; [exact H1 | exact H2].
Defined.

(** ** A frame that arrives in any number of pieces *)

Lemma arrive_nil (r : AudioFrameReceiver) :
  ser r = Some (mkSerial []) -> arrive [] r = r.
Proof.
  intros Hser. destruct r as [sr se st buf]. cbn in Hser. subst se. reflexivity.
Qed.

Lemma concat_nil_all (chunks : list (list byte)) :
  concat chunks = [] -> Forall (fun c => c = []) chunks.
Proof.
  induction chunks as [|c chunks IH]; intros H; [constructor|].
  cbn in H. apply app_eq_nil in H. destruct H as [Hc Hrest].
  constructor; [exact Hc | apply IH; exact Hrest].
Qed.

Lemma receive_chunks_idle (chunks : list (list byte)) (r : AudioFrameReceiver) :
  ser r = Some (mkSerial []) ->
  Forall (fun c => c = []) chunks ->
  receive_chunks chunks r = (map (fun _ => NoFrame) chunks, r).
Proof.
  intros Hser Hall. induction Hall as [|c chunks Hc Hall IH]; [reflexivity|].
  subst c. cbn [receive_chunks map].
  rewrite (arrive_nil r Hser), (receive_idle r _ Hser eq_refl), IH. reflexivity.
Qed.

Lemma filter_delivered_idle (chunks : list (list byte)) :
  filter delivered (map (fun _ => NoFrame) chunks) = [].
Proof.
  induction chunks as [|c chunks IH]; [reflexivity | exact IH].
Qed.

Lemma firstn_plus (k n : nat) (l : list byte) :
  firstn (k + n) l = firstn k l ++ firstn n (skipn k l).
Proof.
  revert l. induction k as [|k IH]; intros l; [reflexivity|].
  destruct l as [|x l]; [destruct n; reflexivity|].
  cbn [Nat.add firstn skipn app]. rewrite IH. reflexivity.
Qed.

Lemma skipn_plus (k n : nat) (l : list byte) :
  skipn (k + n) l = skipn n (skipn k l).
Proof.
  revert l. induction k as [|k IH]; intros l; [reflexivity|].
  destruct l as [|x l]; [destruct n; reflexivity|].
  cbn [Nat.add skipn]. apply IH.
Qed.

Lemma receive_fragments (seq : Z) (payload : list byte) (chunks : list (list byte)) :
  encodable seq payload ->
  Nat.Even (length payload) ->
  forall r k,
    ser r = Some (mkSerial []) ->
    buffer r = firstn k (encode_frame seq payload) ->
    (k < length (encode_frame seq payload))%nat ->
    concat chunks = skipn k (encode_frame seq payload) ->
    exists os r',
      receive_chunks chunks r = (os, r') /\
      filter delivered os = [Samples (samples_of payload)] /\
      buffer r' = [] /\
      frames_received (stats r') = frames_received (stats r) + 1.
Proof.
  intros Henc Heven.
  set (frame := encode_frame seq payload).
  induction chunks as [|c later IH]; intros r k Hser Hbuf Hk Hcat.
  - apply (f_equal (@length byte)) in Hcat. rewrite length_skipn in Hcat.
    cbn [concat length] in Hcat. lia.
  - cbn [concat] in Hcat. cbn [receive_chunks].
    destruct c as [|b c].
    + rewrite (arrive_nil r Hser), (receive_idle r _ Hser eq_refl).
      destruct (IH r k Hser Hbuf Hk Hcat) as (os & r' & Hrun & Hfil & Hb & Hf).
      exists (NoFrame :: os), r'. rewrite Hrun. repeat split; assumption.
    + set (c' := b :: c) in *.
      assert (Hne : c' <> []) by discriminate.
      pose proof (read_serial_arrive r c' Hser Hne) as Hread.
      set (r1 := mkReceiver _ _ _ _) in Hread.
      assert (Hc : c' = firstn (length c') (skipn k frame)).
      { rewrite <- Hcat. symmetry. apply firstn_length_app. }
      assert (Hlater : concat later = skipn (k + length c') frame).
      { rewrite skipn_plus, <- Hcat. symmetry. apply skipn_length_app. }
      assert (Hb1 : buffer r1 = firstn (k + length c') frame).
      { unfold r1. cbn [buffer]. rewrite Hbuf, firstn_plus, <- Hc. reflexivity. }
      assert (Hle : (k + length c' <= length frame)%nat).
      { apply (f_equal (@length byte)) in Hcat.
        rewrite length_app, length_skipn in Hcat. lia. }
      destruct (Nat.eq_dec (k + length c') (length frame)) as [Hfull | Hpart].
      * rewrite Hfull, firstn_all in Hb1.
        assert (Hb1' : buffer r1 = frame ++ []) by (rewrite app_nil_r; exact Hb1).
        assert (Hrecv : receive_frame (arrive c' r) =
                        (Samples (samples_of payload),
                         set_stats (sequence_stats seq (stats r1)) (set_buffer [] r1))).
        { rewrite (receive_valid_frame _ r1 seq payload [] Henc Hread Hb1').
          rewrite (frombuffer_samples_of payload Heven). reflexivity. }
        rewrite Hrecv.
        assert (Hempty : Forall (fun c => c = []) later).
        { apply concat_nil_all. rewrite Hlater, Hfull. apply skipn_all. }
        rewrite (receive_chunks_idle later
                   (set_stats (sequence_stats seq (stats r1)) (set_buffer [] r1))
                   eq_refl Hempty).
        eexists. eexists. split; [reflexivity|].
        cbn [filter delivered]. rewrite filter_delivered_idle.
        destruct (sequence_stats_fields seq (stats r1)) as (Hf & _).
        cbn [stats buffer set_stats set_buffer]. rewrite Hf.
        repeat split.
      * assert (Hk' : (k + length c' < length frame)%nat) by lia.
        assert (Hrecv : receive_frame (arrive c' r) = (NoFrame, r1)).
        { unfold receive_frame. rewrite Hread.
          apply (parse_partial_frame r1 seq payload (k + length c') Henc Hk' Hb1). }
        rewrite Hrecv.
        destruct (IH r1 (k + length c')%nat eq_refl Hb1 Hk' Hlater)
          as (os & r' & Hrun & Hfil & Hb & Hf).
        exists (NoFrame :: os), r'. rewrite Hrun.
        repeat split; try assumption.
Qed.

(** X13.  A valid frame that reaches an opened, drained receiver in any
    number of pieces (empty ones included), one [receive_frame] call after
    each: exactly one call returns something, namely the frame's samples;
    every other call returns [None]; the backlog ends empty. *)
Theorem fragmented_frame_delivered_once (r : AudioFrameReceiver) (seq : Z)
    (payload : list byte) (chunks : list (list byte)) :
  encodable seq payload ->
  Nat.Even (length payload) ->
  ser r = Some (mkSerial []) ->
  buffer r = [] ->
  concat chunks = encode_frame seq payload ->
  filter delivered (fst (receive_chunks chunks r)) = [Samples (samples_of payload)] /\
  buffer (snd (receive_chunks chunks r)) = [] /\
  frames_received (stats (snd (receive_chunks chunks r))) =
    frames_received (stats r) + 1.
Proof.
  intros Henc Heven Hser Hbuf Hcat.
  assert (Hk : (0 < length (encode_frame seq payload))%nat).
  { destruct (encode_frame_marker seq payload) as [tl Htl]. rewrite Htl. simpl. lia. }
  destruct (receive_fragments seq payload chunks Henc Heven r 0 Hser Hbuf Hk Hcat)
    as (os & r' & Hrun & Hfil & Hb & Hf).
  rewrite Hrun. repeat split; assumption.
Qed.

Lemma fragmented_frame_delivered_once_witness :
  encodable 5 [x01; x02; xff; xff] /\
  Nat.Even (length [x01; x02; xff; xff]) /\
  concat [[x55]; []; [xaa; x05; x00; x04]; [x00; x01; x02; xff; xff; x09]; [x03]; []] =
    encode_frame 5 [x01; x02; xff; xff] /\
  fst (receive_chunks
         [[x55]; []; [xaa; x05; x00; x04]; [x00; x01; x02; xff; xff; x09]; [x03]; []]
         (open (init 48000))) =
    [NoFrame; NoFrame; NoFrame; NoFrame; Samples [513; -1]; NoFrame] /\
  filter delivered
    (fst (receive_chunks
            [[x55]; []; [xaa; x05; x00; x04]; [x00; x01; x02; xff; xff; x09]; [x03]; []]
            (open (init 48000)))) = [Samples [513; -1]].
Proof.
  assert (He : encodable 5 [x01; x02; xff; xff]) by concrete_frame.
  assert (Hv : Nat.Even (length [x01; x02; xff; xff])) by concrete_frame.
  split; [exact He | split; [exact Hv | split; [reflexivity|]]].
  pose proof (fragmented_frame_delivered_once (open (init 48000)) 5 [x01; x02; xff; xff]
                [[x55]; []; [xaa; x05; x00; x04]; [x00; x01; x02; xff; xff; x09]; [x03]; []]
                He Hv eq_refl eq_refl eq_refl) as H.
  split; [reflexivity | exact (proj1 H)].
Defined.

(** ** A flush between frames *)



(** * Further properties of the player *)

(** X15.  What [play] does with a frame.  Without a stream it returns
    [False] and counts nothing.  With a stream, the frame is either written
    (result [True]: its bytes are appended to what the stream was given, the
    write did not raise, [frames_dropped] stays) or counted (result
    [False]: [frames_dropped] grows by one); at most one write is made and
    the stream is never written anything but the frame's bytes. *)
Theorem play_accounting (p : Player.AudioPlayer) (audio_data : list Z) (flag : bool) :
  match Player.stream p with
  | None => Player.play audio_data flag p = (false, p)
  | Some s =>
      exists s',
        Player.stream (snd (Player.play audio_data flag p)) = Some s' /\
        Player.frames_dropped (snd (Player.play audio_data flag p)) =
          Player.frames_dropped p +
          (if fst (Player.play audio_data flag p) then 0 else 1) /\
        (Player.written s' = Player.written s \/
         Player.written s' = Player.written s ++ [tobytes audio_data]) /\
        (fst (Player.play audio_data flag p) = true ->
           Player.written s' = Player.written s ++ [tobytes audio_data] /\
           Player.write_raises s = false) /\
        Player.sample_rate (snd (Player.play audio_data flag p)) = Player.sample_rate p
  end.
Proof.
  unfold Player.play. destruct (Player.stream p) as [s|] eqn:Hs; [|reflexivity].
  destruct (if flag
            then match Player.get_write_available s with
                 | Some available => available <? Z.of_nat (length audio_data) * 2
                 | None => false
                 end
            else false).
  - exists s. cbn. rewrite Hs.
    repeat split; try (left; reflexivity); try discriminate.
  - unfold Player.write. destruct (Player.write_raises s) eqn:Hw; cbn.
    + eexists. repeat split; try (right; reflexivity); try discriminate.
    + eexists. repeat split; try (right; reflexivity); try lia.
Qed.

Lemma length_samples_of (payload : list byte) :
  Nat.Even (length payload) ->
  Z.of_nat (length (samples_of payload)) * 2 = Z.of_nat (length payload).
Proof.
  intros [k Hk]. revert payload Hk.
  induction k as [|k IH]; intros payload Hk.
  - destruct payload; [reflexivity | simpl in Hk; lia].
  - destruct payload as [|lo [|hi rest]]; simpl in Hk; try lia.
    cbn [samples_of length]. specialize (IH rest ltac:(lia)). lia.
Qed.

(** X16.  From the wire to the stream.  A valid frame at the head of the
    backlog, received and handed to [play] on a stream that reports at
    least as many writable frames as the payload has bytes and whose write
    does not raise: the stream is written exactly the payload bytes of the
    frame, and nothing is counted as dropped. *)
Theorem frame_reaches_stream (r r1 : AudioFrameReceiver) (p : Player.AudioPlayer)
    (s : Player.Stream) (seq available : Z) (payload rest : list byte) :
  encodable seq payload ->
  Nat.Even (length payload) ->
  read_serial r = Some r1 ->
  buffer r1 = encode_frame seq payload ++ rest ->
  Player.stream p = Some s ->
  Player.write_raises s = false ->
  Player.get_write_available s = Some available ->
  len payload <= available ->
  exists samples r' s',
    receive_frame r = (Samples samples, r') /\
    Player.play samples true p = (true, Player.set_stream s' p) /\
    Player.written s' = Player.written s ++ [payload].
Proof.
  intros Henc Heven Hread Hbuf Hs Hw Ha Hcap.
  exists (samples_of payload),
         (set_stats (sequence_stats seq (stats r1)) (set_buffer rest r1)),
         (Player.mkStream (Player.write_available s) (Player.write_raises s)
                          (Player.written s ++ [payload])).
  split; [|split; [|reflexivity]].
  - rewrite (receive_valid_frame r r1 seq payload rest Henc Hread Hbuf).
    rewrite (frombuffer_samples_of payload Heven). reflexivity.
  - unfold Player.play. rewrite Hs, Ha.
    replace (available <? Z.of_nat (length (samples_of payload)) * 2) with false
      by (symmetry; apply Z.ltb_ge; rewrite (length_samples_of payload Heven);
          exact Hcap).
    unfold Player.write. rewrite Hw, (tobytes_samples_of payload Heven). reflexivity.
Qed.

Lemma frame_reaches_stream_witness :
  encodable 5 [x01; x02; xff; xff] /\
  Nat.Even (length [x01; x02; xff; xff]) /\
  len [x01; x02; xff; xff] <= 60 /\
  exists samples r' s',
    receive_frame (arrive (encode_frame 5 [x01; x02; xff; xff] ++ []) (open (init 48000))) =
      (Samples samples, r') /\
    Player.play samples true (sample_player stream_60_free) =
      (true, Player.set_stream s' (sample_player stream_60_free)) /\
    Player.written s' = [] ++ [[x01; x02; xff; xff]].
Proof.
  assert (He : encodable 5 [x01; x02; xff; xff]) by concrete_frame.
  assert (Hv : Nat.Even (length [x01; x02; xff; xff])) by concrete_frame.
  assert (Hc : len [x01; x02; xff; xff] <= 60) by (unfold len; simpl; lia).
  split; [exact He | split; [exact Hv | split; [exact Hc|]]].
  exact (frame_reaches_stream
           (arrive (encode_frame 5 [x01; x02; xff; xff] ++ []) (open (init 48000)))
           (mkReceiver 48000 (Some (mkSerial [])) (mkStats 0 0 0 0 12 None)
                       (encode_frame 5 [x01; x02; xff; xff] ++ []))
           (sample_player stream_60_free) stream_60_free 5 60 [x01; x02; xff; xff] []
           He Hv eq_refl eq_refl eq_refl eq_refl eq_refl Hc).
Defined.

(** ** The latency estimate and the loop of [main] *)

Lemma rate_inverse_nonneg (rate : Z) : 0 < rate -> (0 <= / inject_Z rate)%Q.
Proof.
  intros H. apply Qinv_le_0_compat. change 0%Q with (inject_Z 0).
  rewrite <- Zle_Qle. lia.
Qed.

Lemma latency_value (p : Player.AudioPlayer) (s : Player.Stream) (a : Z) :
  Player.stream p = Some s ->
  Player.get_write_available s = Some a ->
  0 < Player.sample_rate p ->
  Player.get_buffer_latency_ms p =
    (inject_Z (Z.max 0 (60 * 4 - a) * 1000) / inject_Z (Player.sample_rate p))%Q.
Proof.
  intros Hs Ha Hr. unfold Player.get_buffer_latency_ms. rewrite Hs, Ha.
  replace (Player.sample_rate p =? 0) with false by (symmetry; apply Z.eqb_neq; lia).
  reflexivity.
Qed.

(** X17.  More room, less latency: of two players with the same positive
    sample rate, the one whose stream reports more writable frames never
    has the higher estimate; and from 240 writable frames on the estimate
    is zero. *)
Theorem more_room_less_latency (p p' : Player.AudioPlayer) (s s' : Player.Stream)
    (a a' : Z) :
  0 < Player.sample_rate p ->
  Player.sample_rate p' = Player.sample_rate p ->
  Player.stream p = Some s ->
  Player.stream p' = Some s' ->
  Player.get_write_available s = Some a ->
  Player.get_write_available s' = Some a' ->
  a <= a' ->
  (Player.get_buffer_latency_ms p' <= Player.get_buffer_latency_ms p)%Q /\
  (240 <= a -> (Player.get_buffer_latency_ms p == 0)%Q).
Proof.
  intros Hr Hsame Hs Hs' Ha Ha' Hle.
  rewrite (latency_value p s a Hs Ha Hr).
  rewrite (latency_value p' s' a' Hs' Ha') by (rewrite Hsame; exact Hr).
  rewrite Hsame. split.
  - unfold Qdiv. apply Qmult_le_compat_r; [|apply rate_inverse_nonneg; exact Hr].
    rewrite <- Zle_Qle. lia.
  - intros H240. replace (Z.max 0 (60 * 4 - a)) with 0 by lia.
    unfold Qdiv. apply Qmult_0_l.
Qed.

Lemma more_room_less_latency_witness :
  0 < Player.sample_rate (sample_player saturated_stream) /\
  3 <= 60 /\
  (Player.get_buffer_latency_ms (sample_player stream_60_free) <=
   Player.get_buffer_latency_ms (sample_player saturated_stream))%Q.
Proof.
  assert (Hr : 0 < Player.sample_rate (sample_player saturated_stream)) by (simpl; lia).
  assert (Hle : 3 <= 60) by lia.
  split; [exact Hr | split; [exact Hle|]].
  exact (proj1 (more_room_less_latency
                  (sample_player saturated_stream) (sample_player stream_60_free)
                  saturated_stream stream_60_free 3 60
                  Hr eq_refl eq_refl eq_refl eq_refl eq_refl Hle)).
Defined.

Lemma latency_at_most_5 (p : Player.AudioPlayer) :
  48000 <= Player.sample_rate p ->
  (forall s a, Player.stream p = Some s ->
               Player.get_write_available s = Some a -> 0 <= a) ->
  (Player.get_buffer_latency_ms p <= 5)%Q.
Proof.
  intros Hr Hcap.
  destruct (Player.stream p) as [s|] eqn:Hs.
  - destruct (Player.get_write_available s) as [a|] eqn:Ha.
    + rewrite (latency_value p s a Hs Ha) by lia.
      pose proof (Hcap s a eq_refl Ha) as H0.
      apply Qle_shift_div_r.
      * change 0%Q with (inject_Z 0). rewrite <- Zlt_Qlt. lia.
      * change 5%Q with (inject_Z 5). rewrite <- inject_Z_mult, <- Zle_Qle. lia.
    + unfold Player.get_buffer_latency_ms. rewrite Hs, Ha. discriminate.
  - unfold Player.get_buffer_latency_ms. rewrite Hs. discriminate.
Qed.

(** X18.  At 48000 Hz or more and with a latency limit of 5 ms or more
    (the defaults are 48000 and 5.0), the loop of [main] never flushes the
    receiver: the estimate it compares never exceeds 5 ms, so the receiver
    an iteration leaves is the one [receive_frame] left. *)
Theorem main_never_flushes (max_latency now : Q) (st : PlayMain.LoopState) :
  (5 <= max_latency)%Q ->
  48000 <= Player.sample_rate (PlayMain.player st) ->
  (forall s a, Player.stream (PlayMain.player st) = Some s ->
               Player.get_write_available s = Some a -> 0 <= a) ->
  fst (PlayMain.loop_body max_latency now st) <> PlayMain.Continue true /\
  PlayMain.receiver (snd (PlayMain.loop_body max_latency now st)) =
    snd (receive_frame (PlayMain.receiver st)).
Proof.
  intros Hmax Hrate Hcap.
  assert (Hok : Qle_bool (Player.get_buffer_latency_ms (PlayMain.player st)) max_latency
                = true).
  { apply Qle_bool_iff. eapply Qle_trans; [|exact Hmax].
    apply latency_at_most_5; assumption. }
  unfold PlayMain.loop_body.
  destruct (receive_frame (PlayMain.receiver st)) as [o r1].
  destruct o as [frame | | e]; cbn [snd].
  - destruct (Player.play frame true (PlayMain.player st)) as [played p1].
    rewrite Hok. cbn [negb].
    destruct (Qle_bool 1 (now - PlayMain.last_stats_time st));
      split; (discriminate || reflexivity).
  - split; (discriminate || reflexivity).
  - split; (discriminate || reflexivity).
Qed.

Lemma main_never_flushes_witness :
  (5 <= 5)%Q /\
  48000 <= Player.sample_rate (sample_player saturated_stream) /\
  fst (PlayMain.loop_body 5 2
         (PlayMain.mkLoop (arrive (encode_frame 5 [x01; x02; xff; xff]) (open (init 48000)))
                          (sample_player saturated_stream) 0 0)) <>
    PlayMain.Continue true.
Proof.
  assert (Hm : (5 <= 5)%Q) by apply Qle_refl.
  assert (Hr : 48000 <= Player.sample_rate (sample_player saturated_stream))
    by (simpl; lia).
  assert (Hc : forall s a,
             Player.stream (sample_player saturated_stream) = Some s ->
             Player.get_write_available s = Some a -> 0 <= a).
  { intros s a Hs Ha. inversion Hs; subst. inversion Ha; subst. lia. }
  split; [exact Hm | split; [exact Hr|]].
  exact (proj1 (main_never_flushes 5 2
                  (PlayMain.mkLoop
                     (arrive (encode_frame 5 [x01; x02; xff; xff]) (open (init 48000)))
                     (sample_player saturated_stream) 0 0)
                  Hm Hr Hc)).
Defined.

Lemma play_played_or_counted (p : Player.AudioPlayer) (s : Player.Stream)
    (audio_data : list Z) (flag : bool) :
  Player.stream p = Some s ->
  Player.frames_dropped (snd (Player.play audio_data flag p)) +
  (if fst (Player.play audio_data flag p) then 1 else 0) =
  Player.frames_dropped p + 1.
Proof.
  intros Hs. unfold Player.play. rewrite Hs.
  destruct (if flag
            then match Player.get_write_available s with
                 | Some available => available <? Z.of_nat (length audio_data) * 2
                 | None => false
                 end
            else false); [cbn; lia|].
  unfold Player.write. destruct (Player.write_raises s); cbn; lia.
Qed.

(** X19.  With the stream started, an iteration of the loop of [main] that
    goes on accounts for every frame the receiver hands over: the frame is
    either played ([frame_count] grows) or counted by the player
    ([frames_dropped] grows), so played plus player-dropped frames grow by
    exactly what [frames_received] grows by. *)
Theorem loop_accounts_every_frame (max_latency now : Q) (st : PlayMain.LoopState)
    (s : Player.Stream) (flushed : bool) :
  Player.stream (PlayMain.player st) = Some s ->
  fst (PlayMain.loop_body max_latency now st) = PlayMain.Continue flushed ->
  PlayMain.frame_count (snd (PlayMain.loop_body max_latency now st)) +
  Player.frames_dropped (PlayMain.player (snd (PlayMain.loop_body max_latency now st))) -
  frames_received (stats (PlayMain.receiver (snd (PlayMain.loop_body max_latency now st))))
  =
  PlayMain.frame_count st + Player.frames_dropped (PlayMain.player st) -
  frames_received (stats (PlayMain.receiver st)).
Proof.
  intros Hs Hgo.
  pose proof (proj1 (receive_frame_delivery (PlayMain.receiver st))) as Hrecv.
  unfold PlayMain.loop_body in *.
  destruct (receive_frame (PlayMain.receiver st)) as [o r1].
  cbn [fst snd] in Hrecv.
  destruct o as [frame | | e]; cbn [delivered] in Hrecv.
  - pose proof (play_played_or_counted (PlayMain.player st) s frame true Hs) as Hplay.
    destruct (Player.play frame true (PlayMain.player st)) as [played p1].
    cbn [fst snd] in Hplay.
    destruct (Qle_bool 1 (now - PlayMain.last_stats_time st));
      [destruct (negb (Qle_bool (Player.get_buffer_latency_ms (PlayMain.player st))
                                max_latency))|];
      cbn [snd PlayMain.frame_count PlayMain.player PlayMain.receiver flush_backlog stats];
      destruct played; lia.
  - cbn. lia.
  - cbn in Hgo. discriminate.
Qed.

Lemma loop_accounts_every_frame_witness :
  fst (PlayMain.loop_body 5 2
         (PlayMain.mkLoop (arrive (encode_frame 5 [x01; x02; xff; xff]) (open (init 48000)))
                          (sample_player saturated_stream) 0 0)) =
    PlayMain.Continue false /\
  PlayMain.frame_count
    (snd (PlayMain.loop_body 5 2
            (PlayMain.mkLoop
               (arrive (encode_frame 5 [x01; x02; xff; xff]) (open (init 48000)))
               (sample_player saturated_stream) 0 0))) +
  Player.frames_dropped
    (PlayMain.player
       (snd (PlayMain.loop_body 5 2
               (PlayMain.mkLoop
                  (arrive (encode_frame 5 [x01; x02; xff; xff]) (open (init 48000)))
                  (sample_player saturated_stream) 0 0)))) -
  frames_received
    (stats
       (PlayMain.receiver
          (snd (PlayMain.loop_body 5 2
                  (PlayMain.mkLoop
                     (arrive (encode_frame 5 [x01; x02; xff; xff]) (open (init 48000)))
                     (sample_player saturated_stream) 0 0))))) =
  0 + 0 - 0.
Proof.
  split; [reflexivity|].
  exact (loop_accounts_every_frame 5 2
           (PlayMain.mkLoop
              (arrive (encode_frame 5 [x01; x02; xff; xff]) (open (init 48000)))
              (sample_player saturated_stream) 0 0)
           saturated_stream false eq_refl eq_refl).
Defined.

(** ** The recorder *)

Lemma tobytes_app (a b : list Z) : tobytes (a ++ b) = tobytes a ++ tobytes b.
Proof.
  induction a as [|x a IH]; [reflexivity|].
  cbn [app tobytes]. rewrite IH, <- app_assoc. reflexivity.
Qed.

Lemma record_loop_whole_frames (fs : list (Z * list byte)) :
  forall r acc,
    Forall wire_frame fs ->
    ser r = Some (mkSerial []) ->
    buffer r = [] ->
    exists r',
      Recorder.record_loop (map (fun f => encode_frame (fst f) (snd f)) fs) r acc =
        (None, acc ++ map (fun f => samples_of (snd f)) fs, r') /\
      buffer r' = [] /\
      frames_received (stats r') = frames_received (stats r) + Z.of_nat (length fs).
Proof.
  induction fs as [|[seq payload] fs IH]; intros r acc Hall Hser Hbuf.
  - exists r. cbn. rewrite app_nil_r. repeat split; [exact Hbuf | lia].
  - inversion Hall as [|f fs' [Henc Heven] Hrest]; subst.
    cbn [fst snd] in Henc, Heven.
    pose proof (read_serial_arrive r _ Hser (encode_frame_nonempty seq payload)) as Hread.
    set (r1 := mkReceiver _ _ _ _) in Hread.
    assert (Hb : buffer r1 = encode_frame seq payload ++ []).
    { unfold r1. cbn [buffer]. rewrite Hbuf, app_nil_r. reflexivity. }
    set (r2 := set_stats (sequence_stats seq (stats r1)) (set_buffer [] r1)).
    assert (Hrecv : receive_frame (arrive (encode_frame seq payload) r) =
                    (Samples (samples_of payload), r2)).
    { rewrite (receive_valid_frame _ r1 seq payload [] Henc Hread Hb).
      rewrite (frombuffer_samples_of payload Heven). reflexivity. }
    destruct (IH r2 (acc ++ [samples_of payload]) Hrest eq_refl eq_refl)
      as (r' & Hrun & Hb' & Hf').
    exists r'. cbn [map Recorder.record_loop fst snd]. rewrite Hrecv, Hrun.
    destruct (sequence_stats_fields seq (stats r1)) as (Hf & _).
    change (stats r2) with (sequence_stats seq (stats r1)) in Hf'.
    rewrite Hf in Hf'. rewrite <- app_assoc.
    repeat split; [exact Hb'|]. rewrite Hf'. cbn [length]. cbn. lia.
Qed.

Lemma tobytes_concat_samples (fs : list (Z * list byte)) :
  Forall wire_frame fs ->
  tobytes (concat (map (fun f => samples_of (snd f)) fs)) = concat (map snd fs).
Proof.
  induction 1 as [|[seq payload] fs [_ Heven] _ IH]; [reflexivity|].
  cbn [map concat snd] in *. rewrite tobytes_app, IH, (tobytes_samples_of payload Heven).
  reflexivity.
Qed.

(** X20.  Recording whole frames.  When each iteration of the loop of
    [record_audio] finds one complete wire frame newly arrived at the port of
    an opened, drained receiver, the recording is the samples of all the
    frames in order (its bytes are the payloads one after the other), and
    every frame is counted as received. *)
Theorem record_whole_frames (r : AudioFrameReceiver) (f : Z * list byte)
    (fs : list (Z * list byte)) :
  Forall wire_frame (f :: fs) ->
  ser r = Some (mkSerial []) ->
  buffer r = [] ->
  exists r',
    Recorder.record_audio (encode_frame (fst f) (snd f))
                          (map (fun g => encode_frame (fst g) (snd g)) fs) r =
      (Recorder.Recorded (concat (map (fun g => samples_of (snd g)) (f :: fs))), r') /\
    tobytes (concat (map (fun g => samples_of (snd g)) (f :: fs))) =
      concat (map snd (f :: fs)) /\
    frames_received (stats r') = frames_received (stats r) + Z.of_nat (length (f :: fs)).
Proof.
  intros Hall Hser Hbuf.
  destruct (record_loop_whole_frames (f :: fs) r [] Hall Hser Hbuf) as (r' & Hrun & _ & Hf).
  exists r'. unfold Recorder.record_audio.
  change (encode_frame (fst f) (snd f) :: map (fun g => encode_frame (fst g) (snd g)) fs)
    with (map (fun g => encode_frame (fst g) (snd g)) (f :: fs)).
  rewrite Hrun. cbn [app].
  repeat split; [apply tobytes_concat_samples; exact Hall | exact Hf].
Qed.

Lemma record_whole_frames_witness :
  Forall wire_frame [(5, [x01; x02; xff; xff]); (6, [x10; x80])] /\
  exists r',
    Recorder.record_audio
      (encode_frame 5 [x01; x02; xff; xff]) [encode_frame 6 [x10; x80]]
      (open (init 24000)) = (Recorder.Recorded [513; -1; -32752], r') /\
    tobytes [513; -1; -32752] = [x01; x02; xff; xff; x10; x80] /\
    frames_received (stats r') = 0 + 2.
Proof.
  assert (Hall : Forall wire_frame [(5, [x01; x02; xff; xff]); (6, [x10; x80])]).
  { repeat constructor; cbn; try lia.
    - exists 2%nat; reflexivity.
    - exists 1%nat; reflexivity. }
  split; [exact Hall|].
  exact (record_whole_frames (open (init 24000)) (5, [x01; x02; xff; xff])
           [(6, [x10; x80])] Hall eq_refl eq_refl).
Defined.

(** X21.  The drop rate the loop of [main] prints lies between 0 and 100
    whenever the three counters it is computed from are not negative, and
    no division by zero can occur. *)
Theorem drop_rate_in_range (received dropped player_dropped : Z) :
  0 <= received -> 0 <= dropped -> 0 <= player_dropped ->
  (0 <= PlayMain.drop_rate received dropped player_dropped <= 100)%Q.
Proof.
  intros Hr Hd Hp. unfold PlayMain.drop_rate.
  destruct (Z.gtb_spec (received + (dropped + player_dropped)) 0) as [Hpos | Hzero].
  - assert (Hq : (0 < inject_Z (received + (dropped + player_dropped)))%Q).
    { change 0%Q with (inject_Z 0). rewrite <- Zlt_Qlt. lia. }
    change (100 * inject_Z (dropped + player_dropped))%Q
      with (inject_Z 100 * inject_Z (dropped + player_dropped))%Q.
    rewrite <- inject_Z_mult. split.
    + apply Qle_shift_div_l; [exact Hq|]. rewrite Qmult_0_l.
      change 0%Q with (inject_Z 0). rewrite <- Zle_Qle. lia.
    + apply Qle_shift_div_r; [exact Hq|].
      change 100%Q with (inject_Z 100). rewrite <- inject_Z_mult, <- Zle_Qle. lia.
  - split; discriminate.
Qed.

Lemma drop_rate_in_range_witness :
  0 <= 7 /\ 0 <= 2 /\ 0 <= 1 /\ (0 <= PlayMain.drop_rate 7 2 1 <= 100)%Q.
Proof.
  assert (H7 : 0 <= 7) by lia. assert (H2 : 0 <= 2) by lia. assert (H1 : 0 <= 1) by lia.
  split; [exact H7 | split; [exact H2 | split; [exact H1|]]].
  exact (drop_rate_in_range 7 2 1 H7 H2 H1).
Defined.

(** * Further properties of the counters *)

(** X22.  A frame whose sequence number is not above [last_seq] (a repeated
    or late frame) is still returned, and the gap counter takes it for a
    wrap-around: [frames_dropped] grows by [65535 - (last_seq - seq)], that
    is by 65535 for a repeated number. *)
Theorem stale_sequence_inflates_gap (r r1 : AudioFrameReceiver) (seq last : Z)
    (payload rest : list byte) :
  encodable seq payload ->
  Nat.Even (length payload) ->
  read_serial r = Some r1 ->
  buffer r1 = encode_frame seq payload ++ rest ->
  last_seq (stats r) = Some last ->
  seq <= last < 65536 ->
  fst (receive_frame r) = Samples (samples_of payload) /\
  frames_dropped (stats (snd (receive_frame r))) =
    frames_dropped (stats r) + (65535 - (last - seq)) /\
  last_seq (stats (snd (receive_frame r))) = Some seq.
Proof.
  intros Henc Heven Hread Hbuf Hlast Hrange.
  destruct (read_serial_stats r r1 Hread) as (_ & Hfd & _ & _ & Hls).
  rewrite (receive_valid_frame r r1 seq payload rest Henc Hread Hbuf).
  rewrite (frombuffer_samples_of payload Heven). cbn [fst snd stats set_stats].
  destruct (sequence_stats_fields seq (stats r1)) as (_ & _ & _ & _ & Hnew).
  rewrite sequence_stats_dropped, Hls, Hlast, Hfd, Hnew.
  destruct Henc as [[Hs0 Hs1] _].
  repeat split. f_equal.
  destruct (Z.eq_dec last 65535) as [-> | Hne].
  - change ((65535 + 1) mod 65536) with 0.
    destruct (Z.eqb_spec seq 0) as [-> | Hnz]; [reflexivity|].
    rewrite Z.sub_0_r, Z.mod_small by lia. lia.
  - rewrite (Z.mod_small (last + 1)) by lia.
    destruct (Z.eqb_spec seq (last + 1)) as [Heq | _]; [lia|].
    replace (seq - (last + 1)) with (seq - last - 1 + 65536 + (-1) * 65536) by lia.
    rewrite Z.mod_add by lia. rewrite Z.mod_small by lia. lia.
Qed.

Lemma stale_sequence_inflates_gap_witness :
  encodable 5 [x03; x04] /\
  Nat.Even (length [x03; x04]) /\
  last_seq (stats (arrive (encode_frame 5 [x03; x04]) after_seq_5)) = Some 5 /\
  5 <= 5 < 65536 /\
  fst (receive_frame (arrive (encode_frame 5 [x03; x04]) after_seq_5)) = Samples [1027] /\
  frames_dropped (stats (snd (receive_frame (arrive (encode_frame 5 [x03; x04])
                                                    after_seq_5)))) =
    0 + (65535 - (5 - 5)).
Proof.
  assert (He : encodable 5 [x03; x04]) by concrete_frame.
  assert (Hv : Nat.Even (length [x03; x04])) by concrete_frame.
  assert (Hr : 5 <= 5 < 65536) by lia.
  split; [exact He | split; [exact Hv | split; [reflexivity | split; [exact Hr|]]]].
  pose proof (stale_sequence_inflates_gap
                (arrive (encode_frame 5 [x03; x04]) after_seq_5)
                (mkReceiver 48000 (Some (mkSerial [])) (mkStats 1 0 0 0 20 (Some 5))
                            (encode_frame 5 [x03; x04] ++ []))
                5 5 [x03; x04] [] He Hv eq_refl eq_refl eq_refl Hr) as (H1 & H2 & _).
  split; [exact H1 | exact H2].
Defined.

Lemma encode_frame_len (seq : Z) (payload : list byte) :
  len (encode_frame seq payload) = 8 + len payload.
Proof.
  unfold encode_frame, frame_body, pack_H. rewrite !len_app. unfold len. simpl length. lia.
Qed.

(** The received bytes that are not in the backlog, not counted as sync
    errors, and not in the first 8 bytes of a frame-sized block. *)
Lemma parse_result_bytes (r r' : AudioFrameReceiver) (o : outcome) :
  parse_result r o r' ->
  bytes_received (stats r') = bytes_received (stats r) /\
  len (buffer r') + sync_errors (stats r') +
    8 * (checksum_errors (stats r') + frames_received (stats r')) <=
  len (buffer r) + sync_errors (stats r) +
    8 * (checksum_errors (stats r) + frames_received (stats r)).
Proof.
  intros H. destruct H as [skipped rest Hb Hn Hs | skipped block rest Hb Hn Hl
                          | skipped seq payload rest Hb Hn Henc].
  - rewrite Hb, len_app.
    cbn [stats buffer resynced set_stats set_buffer set_sync_errors add_checksum_errors sync_errors checksum_errors frames_received bytes_received].
    split; [reflexivity | lia].
  - rewrite Hb, !len_app.
    cbn [stats buffer resynced set_stats set_buffer set_sync_errors add_checksum_errors sync_errors checksum_errors frames_received bytes_received].
    split; [reflexivity | lia].
  - rewrite Hb, !len_app, encode_frame_len.
    pose proof (len_nonneg payload).
    destruct (sequence_stats_fields seq (stats (resynced skipped rest r)))
      as (Hf & Hc & Hs & Hby & _).
    cbn [stats buffer set_stats]. rewrite Hf, Hc, Hs, Hby.
    cbn [stats buffer resynced set_stats set_buffer set_sync_errors add_checksum_errors sync_errors checksum_errors frames_received bytes_received].
    split; [reflexivity | lia].
Qed.

Lemma reachable_bytes (rate : Z) (r : AudioFrameReceiver) :
  reachable rate r ->
  len (buffer r) + sync_errors (stats r) +
    8 * (checksum_errors (stats r) + frames_received (stats r)) <=
  bytes_received (stats r).
Proof.
  induction 1 as [ | r Hr IH | r data Hr IH | r Hr IH | r Hr IH].
  - cbn. lia.
  - exact IH.
  - unfold arrive. destruct (ser r); exact IH.
  - destruct (receive_frame_cases r) as [[_ Hidle] | (r1 & Hread & Hpr)].
    + rewrite Hidle. exact IH.
    + destruct (read_serial_stats r r1 Hread) as (Hfr & _ & Hce & Hse & _).
      destruct (read_serial_spec r r1 Hread) as (chunk & _ & Hbuf & Hby & _).
      destruct (parse_result_bytes _ _ _ Hpr) as [Hsame Hle].
      rewrite Hbuf, len_app in Hle. lia.
  - pose proof (len_nonneg (buffer r)).
    unfold flush_backlog. cbn [stats buffer]. change (len []) with 0. lia.
Qed.

(** X23.  Throughout a session every counted event is paid for in received
    bytes: the bytes in the backlog, plus one per sync error, plus at least
    eight per accepted frame and per checksum error, never exceed
    [bytes_received]. *)
Theorem received_bytes_cover_events (rate : Z) (r : AudioFrameReceiver) :
  reachable rate r ->
  len (buffer r) + sync_errors (stats r) +
    8 * (checksum_errors (stats r) + frames_received (stats r)) <=
  bytes_received (stats r).
Proof.
  exact (reachable_bytes rate r).
Qed.

Lemma received_bytes_cover_events_witness :
  reachable 48000
    (snd (receive_frame (arrive ([x00; x55] ++ encode_frame 5 [x01; x02] ++ [x07])
                                (open (init 48000))))) /\
  1 + 2 + 8 * (0 + 1) <= 13.
Proof.
  assert (Hr : reachable 48000
                 (snd (receive_frame
                         (arrive ([x00; x55] ++ encode_frame 5 [x01; x02] ++ [x07])
                                 (open (init 48000))))))
    by (apply reach_receive, reach_arrive, reach_open, reach_init).
  split; [exact Hr|].
  exact (received_bytes_cover_events 48000 _ Hr).
Defined.
